(** * Vibe Surfer (src/App.tsx): the simulation core, embedded and verified

    The file follows the structure of [App.tsx]:

    - the numbers of the program (JavaScript [number]s) behind one small
      interface, with an exact instance (rationals) and the IEEE-754
      binary64 instance JavaScript really computes with;
    - the data model: [Obstacle], [Particle], the React state of the [App]
      component, its refs, and the part of the browser the component talks
      to (timers, animation frames, local storage, the random source);
    - the functions of the component, translated one by one;
    - the React runtime the component runs under: queued state updates,
      re-rendering, the effect that starts and stops the frame loop;
    - what is painted on the canvas and what is rendered over it;
    - the properties. *)

From Stdlib Require Import ZArith QArith Qround Qabs List String Ascii Bool Lia Floats.
From Stdlib Require Import Lqa.
From Stdlib Require Import DecimalString.
From Stdlib Require DecimalPos.
Import ListNotations.

Set Implicit Arguments.

Local Open Scope Z_scope.

(** ** JavaScript numbers *)

(** The arithmetic [App.tsx] uses on non-integer quantities (positions,
    speeds, random draws).  [num_floor] is [Math.floor] read as an integer
    (it is only applied to array and lane indices). *)
Class JSNumber (R : Type) : Type := {
  num_of_Z : Z -> R;
  num_add : R -> R -> R;
  num_sub : R -> R -> R;
  num_mul : R -> R -> R;
  num_div : R -> R -> R;
  num_ltb : R -> R -> bool;
  num_abs : R -> R;
  num_floor : R -> Z
}.

Declare Scope js_scope.
Delimit Scope js_scope with js.
Infix "+" := num_add : js_scope.
Infix "-" := num_sub : js_scope.
Infix "*" := num_mul : js_scope.
Infix "/" := num_div : js_scope.
Infix "<?" := num_ltb : js_scope.
Notation "x >? y" := (num_ltb y x) : js_scope.

(** A decimal literal [p/q] of the source, e.g. [0.001] is [lit 1 1000].
    Both [p] and [q] are small integers, so with a correctly rounded
    division this is the binary64 value nearest to the literal, which is
    what a JavaScript parser produces. *)
Definition lit {R} `{JSNumber R} (p q : Z) : R := (num_of_Z p / num_of_Z q)%js.

(** Exact instance: the rationals. *)
#[export] Instance Q_JSNumber : JSNumber Q := {
  num_of_Z := inject_Z;
  num_add := Qplus;
  num_sub := Qminus;
  num_mul := Qmult;
  num_div := Qdiv;
  num_ltb := fun x y => match Qcompare x y with Lt => true | _ => false end;
  num_abs := Qabs;
  num_floor := Qfloor
}.

(** binary64 instance.  [float_of_Z] is exact for |z| < 2^53, which covers
    every integer constant of the program. *)
Definition float_of_Z (z : Z) : float :=
  SF2Prim (binary_normalize prec emax z 0 false).

Definition float_floor (x : float) : Z :=
  match Prim2SF x with
  | S754_finite s m e =>
      let z := if s then Zneg m else Zpos m in
      if 0 <=? e then z * 2 ^ e else z / 2 ^ (- e)
  | _ => 0
  end.

#[export] Instance float_JSNumber : JSNumber float := {
  num_of_Z := float_of_Z;
  num_add := PrimFloat.add;
  num_sub := PrimFloat.sub;
  num_mul := PrimFloat.mul;
  num_div := PrimFloat.div;
  num_ltb := PrimFloat.ltb;
  num_abs := PrimFloat.abs;
  num_floor := float_floor
}.

(** Integer-valued JavaScript numbers that may be [NaN]: the result of
    [parseInt], hence the high score. *)
Inductive jsint : Type :=
| NaN
| Int (z : Z).

(** [a > b] with [a] an integer and [b] possibly [NaN]: any comparison with
    [NaN] is false. *)
Definition gt_jsint (a : Z) (b : jsint) : bool :=
  match b with
  | NaN => false
  | Int z => z <? a
  end.

(** ** Data model *)

Inductive GameState : Type := MENU | PLAYING | GAME_OVER | SHOP.

Definition GameState_eqb (a b : GameState) : bool :=
  match a, b with
  | MENU, MENU | PLAYING, PLAYING | GAME_OVER, GAME_OVER | SHOP, SHOP => true
  | _, _ => false
  end.

Inductive ObstacleType : Type := BLOCK | AURA.

Record Obstacle (R : Type) : Type := {
  ob_id : R;
  ob_lane : Z;
  ob_y : R;
  ob_type : ObstacleType
}.

Record Particle (R : Type) : Type := {
  p_id : R;
  p_x : R;
  p_y : R;
  p_vx : R;
  p_vy : R;
  p_life : R;
  p_maxLife : R;
  p_color : string;
  p_size : R;
  p_glow : bool
}.

(** The [options: Partial<Particle>] argument of [createParticles]; only
    these fields are ever passed. *)
Record Options (R : Type) : Type := {
  o_vx : option R;
  o_vy : option R;
  o_size : option R;
  o_glow : option bool;
  o_maxLife : option R
}.

(** The React state of [App]: the values of the [useState] hooks.  A value
    of this type is also what the functions created by one render see: in a
    function component [gameState], [score], [isFlowState], ... are constants
    of the render, and [update], [endGame], the key handler, ... are
    closures over them. *)
Record Render : Type := {
  gameState : GameState;
  score : Z;
  highScore : jsint;
  auraCount : Z;
  isFlowState : bool;
  playerLane : Z;
  gameOverText : string;
  isShaking : bool
}.

(** A queued state update: one constructor per way the program calls a
    state setter.  [AddScore k] is [setScore(s => s + k)]; [LaneLeft] and
    [LaneRight] are the two updaters of [setPlayerLane]; [BumpAura f] is the
    updater passed to [setAuraCount] in [update], a closure over the
    [isFlowState] of the render that created [update] (the field [f]). *)
Inductive Action : Type :=
| SetGameState (g : GameState)
| SetScore (v : Z)
| AddScore (k : Z)
| SetHighScore (v : Z)
| SetAuraCount (v : Z)
| BumpAura (flowSeen : bool)
| SetIsFlowState (b : bool)
| SetPlayerLane (v : Z)
| LaneLeft
| LaneRight
| SetGameOverText (s : string)
| SetIsShaking (b : bool).

(** What a pending [setTimeout] will do: the two callbacks of the program,
    [() => setIsFlowState(false)] and [() => setIsShaking(false)]. *)
Inductive TimerCallback : Type := ExpireFlow | ClearShake.

Record Timer : Type := {
  t_id : positive;
  t_due : Z;
  t_cb : TimerCallback
}.

(** The component instance and the part of the browser it uses.
    - [st] is the committed React state, [queue] the updates queued by
      setter calls since the last render;
    - [obstaclesRef] ... [canvasRef] are the [.current] of the refs
      ([canvasRef] holds the canvas width and height when it is mounted);
    - [innerSize] is [(window.innerWidth, window.innerHeight)], [clock] the
      time in milliseconds, [timers] the pending timeouts, [frames] the
      pending animation-frame callbacks (each is [update] of some render),
      [nextHandle] the next timer or frame handle (handles are positive),
      [storage] the local-storage entry ['vibe-surfer-highscore'], and
      [draws] counts the calls to [Math.random] so far. *)
Record World (R : Type) : Type := {
  st : Render;
  queue : list Action;
  obstaclesRef : list (Obstacle R);
  particlesRef : list (Particle R);
  speedRef : R;
  lastTimeRef : R;
  flowStateTimerRef : option positive;
  shakeTimerRef : option positive;
  requestRef : option positive;
  canvasRef : option (R * R);
  innerSize : R * R;
  clock : Z;
  timers : list Timer;
  frames : list (positive * Render);
  nextHandle : positive;
  storage : option string;
  draws : nat
}.

Definition set_gameState (v : GameState) (r : Render) : Render :=
  {| gameState := v; score := score r; highScore := highScore r;
     auraCount := auraCount r; isFlowState := isFlowState r;
     playerLane := playerLane r; gameOverText := gameOverText r;
     isShaking := isShaking r |}.

Definition set_score (v : Z) (r : Render) : Render :=
  {| gameState := gameState r; score := v; highScore := highScore r;
     auraCount := auraCount r; isFlowState := isFlowState r;
     playerLane := playerLane r; gameOverText := gameOverText r;
     isShaking := isShaking r |}.

Definition set_highScore (v : jsint) (r : Render) : Render :=
  {| gameState := gameState r; score := score r; highScore := v;
     auraCount := auraCount r; isFlowState := isFlowState r;
     playerLane := playerLane r; gameOverText := gameOverText r;
     isShaking := isShaking r |}.

Definition set_auraCount (v : Z) (r : Render) : Render :=
  {| gameState := gameState r; score := score r; highScore := highScore r;
     auraCount := v; isFlowState := isFlowState r; playerLane := playerLane r;
     gameOverText := gameOverText r; isShaking := isShaking r |}.

Definition set_isFlowState (v : bool) (r : Render) : Render :=
  {| gameState := gameState r; score := score r; highScore := highScore r;
     auraCount := auraCount r; isFlowState := v; playerLane := playerLane r;
     gameOverText := gameOverText r; isShaking := isShaking r |}.

Definition set_playerLane (v : Z) (r : Render) : Render :=
  {| gameState := gameState r; score := score r; highScore := highScore r;
     auraCount := auraCount r; isFlowState := isFlowState r; playerLane := v;
     gameOverText := gameOverText r; isShaking := isShaking r |}.

Definition set_gameOverText (v : string) (r : Render) : Render :=
  {| gameState := gameState r; score := score r; highScore := highScore r;
     auraCount := auraCount r; isFlowState := isFlowState r;
     playerLane := playerLane r; gameOverText := v; isShaking := isShaking r |}.

Definition set_isShaking (v : bool) (r : Render) : Render :=
  {| gameState := gameState r; score := score r; highScore := highScore r;
     auraCount := auraCount r; isFlowState := isFlowState r;
     playerLane := playerLane r; gameOverText := gameOverText r; isShaking := v |}.

Definition set_st {R} (v : Render) (w : World R) : World R :=
  {| st := v; queue := queue w; obstaclesRef := obstaclesRef w;
     particlesRef := particlesRef w; speedRef := speedRef w;
     lastTimeRef := lastTimeRef w; flowStateTimerRef := flowStateTimerRef w;
     shakeTimerRef := shakeTimerRef w; requestRef := requestRef w;
     canvasRef := canvasRef w; innerSize := innerSize w; clock := clock w;
     timers := timers w; frames := frames w; nextHandle := nextHandle w;
     storage := storage w; draws := draws w |}.

Definition set_queue {R} (v : list Action) (w : World R) : World R :=
  {| st := st w; queue := v; obstaclesRef := obstaclesRef w;
     particlesRef := particlesRef w; speedRef := speedRef w;
     lastTimeRef := lastTimeRef w; flowStateTimerRef := flowStateTimerRef w;
     shakeTimerRef := shakeTimerRef w; requestRef := requestRef w;
     canvasRef := canvasRef w; innerSize := innerSize w; clock := clock w;
     timers := timers w; frames := frames w; nextHandle := nextHandle w;
     storage := storage w; draws := draws w |}.

Definition set_obstaclesRef {R} (v : list (Obstacle R)) (w : World R) : World R :=
  {| st := st w; queue := queue w; obstaclesRef := v; particlesRef := particlesRef w;
     speedRef := speedRef w; lastTimeRef := lastTimeRef w;
     flowStateTimerRef := flowStateTimerRef w; shakeTimerRef := shakeTimerRef w;
     requestRef := requestRef w; canvasRef := canvasRef w; innerSize := innerSize w;
     clock := clock w; timers := timers w; frames := frames w;
     nextHandle := nextHandle w; storage := storage w; draws := draws w |}.

Definition set_particlesRef {R} (v : list (Particle R)) (w : World R) : World R :=
  {| st := st w; queue := queue w; obstaclesRef := obstaclesRef w; particlesRef := v;
     speedRef := speedRef w; lastTimeRef := lastTimeRef w;
     flowStateTimerRef := flowStateTimerRef w; shakeTimerRef := shakeTimerRef w;
     requestRef := requestRef w; canvasRef := canvasRef w; innerSize := innerSize w;
     clock := clock w; timers := timers w; frames := frames w;
     nextHandle := nextHandle w; storage := storage w; draws := draws w |}.

Definition set_speedRef {R} (v : R) (w : World R) : World R :=
  {| st := st w; queue := queue w; obstaclesRef := obstaclesRef w;
     particlesRef := particlesRef w; speedRef := v; lastTimeRef := lastTimeRef w;
     flowStateTimerRef := flowStateTimerRef w; shakeTimerRef := shakeTimerRef w;
     requestRef := requestRef w; canvasRef := canvasRef w; innerSize := innerSize w;
     clock := clock w; timers := timers w; frames := frames w;
     nextHandle := nextHandle w; storage := storage w; draws := draws w |}.

Definition set_lastTimeRef {R} (v : R) (w : World R) : World R :=
  {| st := st w; queue := queue w; obstaclesRef := obstaclesRef w;
     particlesRef := particlesRef w; speedRef := speedRef w; lastTimeRef := v;
     flowStateTimerRef := flowStateTimerRef w; shakeTimerRef := shakeTimerRef w;
     requestRef := requestRef w; canvasRef := canvasRef w; innerSize := innerSize w;
     clock := clock w; timers := timers w; frames := frames w;
     nextHandle := nextHandle w; storage := storage w; draws := draws w |}.

Definition set_flowStateTimerRef {R} (v : option positive) (w : World R) : World R :=
  {| st := st w; queue := queue w; obstaclesRef := obstaclesRef w;
     particlesRef := particlesRef w; speedRef := speedRef w;
     lastTimeRef := lastTimeRef w; flowStateTimerRef := v;
     shakeTimerRef := shakeTimerRef w; requestRef := requestRef w;
     canvasRef := canvasRef w; innerSize := innerSize w; clock := clock w;
     timers := timers w; frames := frames w; nextHandle := nextHandle w;
     storage := storage w; draws := draws w |}.

Definition set_shakeTimerRef {R} (v : option positive) (w : World R) : World R :=
  {| st := st w; queue := queue w; obstaclesRef := obstaclesRef w;
     particlesRef := particlesRef w; speedRef := speedRef w;
     lastTimeRef := lastTimeRef w; flowStateTimerRef := flowStateTimerRef w;
     shakeTimerRef := v; requestRef := requestRef w; canvasRef := canvasRef w;
     innerSize := innerSize w; clock := clock w; timers := timers w;
     frames := frames w; nextHandle := nextHandle w; storage := storage w;
     draws := draws w |}.

Definition set_requestRef {R} (v : option positive) (w : World R) : World R :=
  {| st := st w; queue := queue w; obstaclesRef := obstaclesRef w;
     particlesRef := particlesRef w; speedRef := speedRef w;
     lastTimeRef := lastTimeRef w; flowStateTimerRef := flowStateTimerRef w;
     shakeTimerRef := shakeTimerRef w; requestRef := v; canvasRef := canvasRef w;
     innerSize := innerSize w; clock := clock w; timers := timers w;
     frames := frames w; nextHandle := nextHandle w; storage := storage w;
     draws := draws w |}.

Definition set_canvasRef {R} (v : option (R * R)) (w : World R) : World R :=
  {| st := st w; queue := queue w; obstaclesRef := obstaclesRef w;
     particlesRef := particlesRef w; speedRef := speedRef w;
     lastTimeRef := lastTimeRef w; flowStateTimerRef := flowStateTimerRef w;
     shakeTimerRef := shakeTimerRef w; requestRef := requestRef w; canvasRef := v;
     innerSize := innerSize w; clock := clock w; timers := timers w;
     frames := frames w; nextHandle := nextHandle w; storage := storage w;
     draws := draws w |}.

Definition set_innerSize {R} (v : R * R) (w : World R) : World R :=
  {| st := st w; queue := queue w; obstaclesRef := obstaclesRef w;
     particlesRef := particlesRef w; speedRef := speedRef w;
     lastTimeRef := lastTimeRef w; flowStateTimerRef := flowStateTimerRef w;
     shakeTimerRef := shakeTimerRef w; requestRef := requestRef w;
     canvasRef := canvasRef w; innerSize := v; clock := clock w; timers := timers w;
     frames := frames w; nextHandle := nextHandle w; storage := storage w;
     draws := draws w |}.

Definition set_clock {R} (v : Z) (w : World R) : World R :=
  {| st := st w; queue := queue w; obstaclesRef := obstaclesRef w;
     particlesRef := particlesRef w; speedRef := speedRef w;
     lastTimeRef := lastTimeRef w; flowStateTimerRef := flowStateTimerRef w;
     shakeTimerRef := shakeTimerRef w; requestRef := requestRef w;
     canvasRef := canvasRef w; innerSize := innerSize w; clock := v;
     timers := timers w; frames := frames w; nextHandle := nextHandle w;
     storage := storage w; draws := draws w |}.

Definition set_timers {R} (v : list Timer) (w : World R) : World R :=
  {| st := st w; queue := queue w; obstaclesRef := obstaclesRef w;
     particlesRef := particlesRef w; speedRef := speedRef w;
     lastTimeRef := lastTimeRef w; flowStateTimerRef := flowStateTimerRef w;
     shakeTimerRef := shakeTimerRef w; requestRef := requestRef w;
     canvasRef := canvasRef w; innerSize := innerSize w; clock := clock w; timers := v;
     frames := frames w; nextHandle := nextHandle w; storage := storage w;
     draws := draws w |}.

Definition set_frames {R} (v : list (positive * Render)) (w : World R) : World R :=
  {| st := st w; queue := queue w; obstaclesRef := obstaclesRef w;
     particlesRef := particlesRef w; speedRef := speedRef w;
     lastTimeRef := lastTimeRef w; flowStateTimerRef := flowStateTimerRef w;
     shakeTimerRef := shakeTimerRef w; requestRef := requestRef w;
     canvasRef := canvasRef w; innerSize := innerSize w; clock := clock w;
     timers := timers w; frames := v; nextHandle := nextHandle w; storage := storage w;
     draws := draws w |}.

Definition set_nextHandle {R} (v : positive) (w : World R) : World R :=
  {| st := st w; queue := queue w; obstaclesRef := obstaclesRef w;
     particlesRef := particlesRef w; speedRef := speedRef w;
     lastTimeRef := lastTimeRef w; flowStateTimerRef := flowStateTimerRef w;
     shakeTimerRef := shakeTimerRef w; requestRef := requestRef w;
     canvasRef := canvasRef w; innerSize := innerSize w; clock := clock w;
     timers := timers w; frames := frames w; nextHandle := v; storage := storage w;
     draws := draws w |}.

Definition set_storage {R} (v : option string) (w : World R) : World R :=
  {| st := st w; queue := queue w; obstaclesRef := obstaclesRef w;
     particlesRef := particlesRef w; speedRef := speedRef w;
     lastTimeRef := lastTimeRef w; flowStateTimerRef := flowStateTimerRef w;
     shakeTimerRef := shakeTimerRef w; requestRef := requestRef w;
     canvasRef := canvasRef w; innerSize := innerSize w; clock := clock w;
     timers := timers w; frames := frames w; nextHandle := nextHandle w; storage := v;
     draws := draws w |}.

Definition set_draws {R} (v : nat) (w : World R) : World R :=
  {| st := st w; queue := queue w; obstaclesRef := obstaclesRef w;
     particlesRef := particlesRef w; speedRef := speedRef w;
     lastTimeRef := lastTimeRef w; flowStateTimerRef := flowStateTimerRef w;
     shakeTimerRef := shakeTimerRef w; requestRef := requestRef w;
     canvasRef := canvasRef w; innerSize := innerSize w; clock := clock w;
     timers := timers w; frames := frames w; nextHandle := nextHandle w;
     storage := storage w; draws := v |}.

(** ** The host environment *)

(** [Math.random], [Math.cos], [Math.sin] and [Math.PI] are inputs of the
    program: [Math_random n] is the value returned by the [n]-th call of
    [Math.random()] (the world counts the calls in [draws]). *)
Class Host (R : Type) : Type := {
  Math_random : nat -> R;
  Math_cos : R -> R;
  Math_sin : R -> R;
  Math_PI : R
}.

(** [Number.prototype.toString] on an integer. *)
Definition toString (z : Z) : string := NilZero.string_of_int (Z.to_int z).

(** ** Constants *)

Definition LANES : Z := 3.
Definition LANE_WIDTH : Z := 100.
Definition PLAYER_SIZE : Z := 40.
Definition OBSTACLE_SIZE : Z := 50.
Definition AURA_SIZE : Z := 30.
Definition INITIAL_SPEED : Z := 5.
Definition FLOW_STATE_DURATION : Z := 10000.

Definition gameOverMessages : list string :=
  [ "Aura points deducted.";
    "Bro forgot how to swipe.";
    "Touch grass (or just try again).";
    "L + Ratio + Crashed.";
    "Main character energy depleted.";
    "Skill issue detected.";
    "Vibe check failed." ]%string.

(** [gameOverMessages[i]]; an index outside the array gives [undefined]. *)
Definition message_at (i : Z) : string :=
  if i <? 0 then "undefined"%string
  else nth (Z.to_nat i) gameOverMessages "undefined"%string.

(** ** Reading the stored high score *)

(** [parseInt(s)] of the language standard, on ASCII strings: leading white
    space is skipped, then an optional sign, then an optional [0x] or [0X]
    (radix 16), then the longest run of digits of the radix; no digit at
    all gives [NaN]. *)
Definition isWhiteSpace (c : ascii) : bool :=
  let n := nat_of_ascii c in
  (Nat.eqb n 32 || ((9 <=? n) && (n <=? 13)))%nat%bool.

Fixpoint trimStart (s : string) : string :=
  match s with
  | String c s' => if isWhiteSpace c then trimStart s' else s
  | EmptyString => s
  end.

Definition digitValue (c : ascii) : option Z :=
  let n := Z.of_nat (nat_of_ascii c) in
  if (48 <=? n) && (n <=? 57) then Some (n - 48)
  else if (97 <=? n) && (n <=? 122) then Some (n - 87)
  else if (65 <=? n) && (n <=? 90) then Some (n - 55)
  else None.

(** The digits of radix [radix] at the start of [s], most significant
    first, folded into [acc]; [seen] tells whether a digit was read. *)
Fixpoint parseDigits (radix : Z) (s : string) (seen : bool) (acc : Z) : option Z :=
  match s with
  | String c s' =>
      match digitValue c with
      | Some d =>
          if d <? radix then parseDigits radix s' true (acc * radix + d)
          else if seen then Some acc else None
      | None => if seen then Some acc else None
      end
  | EmptyString => if seen then Some acc else None
  end.

Definition parseInt (input : string) : jsint :=
  let s := trimStart input in
  let (sign, s) :=
    match s with
    | String "-" s' => (-1, s')
    | String "+" s' => (1, s')
    | _ => (1, s)
    end in
  let (radix, s) :=
    match s with
    | String "0" (String "x" s') => (16, s')
    | String "0" (String "X" s') => (16, s')
    | _ => (10, s)
    end in
  match parseDigits radix s false 0 with
  | Some n => Int (sign * n)
  | None => NaN
  end.

(** The initial value of the [highScore] hook (lines 50-53): [saved] is
    [localStorage.getItem('vibe-surfer-highscore')], [None] for [null]; the
    empty string is falsy. *)
Definition initialHighScore (saved : option string) : jsint :=
  match saved with
  | Some (String c s) => parseInt (String c s)
  | Some EmptyString => Int 0
  | None => Int 0
  end.




(** ** The component *)

(** [App] is a React function component.  What React does with it is part
    of the meaning of the program, and is modelled as follows.

    - Closures.  Every render calls [App] with the state of that render;
      [gameState], [score], [highScore], [isFlowState], [playerLane] are
      constants of the call, and the functions defined in the body
      ([update], [endGame], the input handlers) read the constants of the
      render that created them.  In the model such a function takes that
      render as its first argument [rd].  Functions that read no state
      ([startGame], [activateFlowState], [triggerShake], ...) take none.
    - State updates.  A call of a state setter does not change the state,
      it queues an update.  When the callback that made the calls has
      returned, React renders the component once and applies the queued
      updates in the order of the calls; an updater function is run at that
      moment, on the latest value.
    - Updates from an updater.  The updater of [setAuraCount] calls
      [activateFlowState], which calls state setters: these updates are
      applied right after the ones being processed, in a second pass of the
      same render.
    - Effects.  After the render, an effect whose dependencies changed is
      run, preceded by the cleanup of its previous run.  The effect on
      [gameState] is the only one with dependencies.
    - Who is called.  The DOM calls the handlers of the last render.  The
      browser calls whatever function was handed to
      [requestAnimationFrame]: the effect hands over the [update] of the
      render in which [gameState] became [PLAYING], and that [update] hands
      over itself at the end of every frame.
    - React finishes rendering and running effects before the next event
      arrives. *)

Section Component.

Context {R : Type} {num : JSNumber R} {host : Host R}.

Local Open Scope js_scope.

Definition SPEED_INCREMENT : R := lit 1 1000.

(** *** Browser primitives *)

Definition random (w : World R) : R * World R :=
  (Math_random (draws w), set_draws (S (draws w)) w).

Definition clearTimeout (id : positive) (w : World R) : World R :=
  set_timers (filter (fun t => negb (Pos.eqb (t_id t) id)) (timers w)) w.

Definition setTimeout (cb : TimerCallback) (delay : Z) (w : World R)
  : positive * World R :=
  let id := nextHandle w in
  let t := {| t_id := id; t_due := (clock w + delay)%Z; t_cb := cb |} in
  (id, set_nextHandle (Pos.succ id) (set_timers (timers w ++ [t]) w)).

Definition cancelAnimationFrame (id : positive) (w : World R) : World R :=
  set_frames (filter (fun f => negb (Pos.eqb (fst f) id)) (frames w)) w.

(** A call of a state setter queues the update; React applies the queue
    when it next renders the component (see [renderState]). *)
Definition enqueue (a : Action) (w : World R) : World R :=
  set_queue (queue w ++ [a]) w.

(** *** Game logic *)

(** [spawnObstacle] (lines 81-91). *)
Definition spawnObstacle (w : World R) : World R :=
  let (r1, w) := random w in
  let lane := num_floor (r1 * num_of_Z LANES) in
  let (r2, w) := random w in
  let isAura := r2 >? lit 8 10 in
  let (r3, w) := random w in
  let newObstacle :=
    {| ob_id := num_of_Z (clock w) + r3;
       ob_lane := lane;
       ob_y := num_of_Z (-100);
       ob_type := if isAura then AURA else BLOCK |} in
  set_obstaclesRef (obstaclesRef w ++ [newObstacle]) w.

Definition sizeGlow (size : Z) (glow : bool) : Options R :=
  {| o_vx := None; o_vy := None; o_size := Some (num_of_Z size);
     o_glow := Some glow; o_maxLife := None |}.

(** A field [f] of the object literal followed by [...options]. *)
Definition spread {A} (o : option A) (f : A) : A :=
  match o with
  | Some v => v
  | None => f
  end.

(** One iteration of the loop of [createParticles] (lines 95-109); the
    calls to [Math.random] are made in the order of the source. *)
Definition createParticle (x y : R) (color : string) (options : Options R)
  (w : World R) : World R :=
  let (r1, w) := random w in
  let angle := r1 * Math_PI * num_of_Z 2 in
  let (r2, w) := random w in
  let speed := r2 * num_of_Z 8 + num_of_Z 2 in
  let (r3, w) := random w in
  let (r4, w) := random w in
  let (r5, w) := random w in
  let p :=
    {| p_id := r3;
       p_x := x;
       p_y := y;
       p_vx := spread (o_vx options) (Math_cos angle * speed);
       p_vy := spread (o_vy options) (Math_sin angle * speed);
       p_life := num_of_Z 1;
       p_maxLife := spread (o_maxLife options) (r4 * lit 5 10 + lit 5 10);
       p_color := color;
       p_size := spread (o_size options) (r5 * num_of_Z 4 + num_of_Z 2);
       p_glow := spread (o_glow options) true |} in
  set_particlesRef (particlesRef w ++ [p]) w.

(** [createParticles] (lines 93-111). *)
Fixpoint createParticles (x y : R) (color : string) (count : nat)
  (options : Options R) (w : World R) : World R :=
  match count with
  | O => w
  | S n => createParticles x y color n options (createParticle x y color options w)
  end.

(** [triggerShake] (lines 113-117). *)
Definition triggerShake (duration : Z) (w : World R) : World R :=
  let w := enqueue (SetIsShaking true) w in
  let w := match shakeTimerRef w with
           | Some id => clearTimeout id w
           | None => w
           end in
  let (id, w) := setTimeout ClearShake duration w in
  set_shakeTimerRef (Some id) w.

(** [startGame] (lines 119-129).  [performance.now()] is read off the
    clock of the world; [lastTimeRef] is written but never used. *)
Definition startGame (w : World R) : World R :=
  let w := enqueue (SetGameState PLAYING) w in
  let w := enqueue (SetScore 0) w in
  let w := enqueue (SetAuraCount 0) w in
  let w := enqueue (SetIsFlowState false) w in
  let w := enqueue (SetPlayerLane 1) w in
  let w := set_speedRef (num_of_Z INITIAL_SPEED) w in
  let w := set_obstaclesRef [] w in
  let w := set_particlesRef [] w in
  set_lastTimeRef (num_of_Z (clock w)) w.

(** [endGame] (lines 131-139), as created by the render [rd]: it reads the
    [score] and [highScore] of that render. *)
Definition endGame (rd : Render) (w : World R) : World R :=
  let w := enqueue (SetGameState GAME_OVER) w in
  let (r, w) := random w in
  let w := enqueue (SetGameOverText
                      (message_at (num_floor (r * num_of_Z (Z.of_nat (List.length gameOverMessages))))))
                   w in
  let w := if gt_jsint (score rd) (highScore rd)
           then set_storage (Some (toString (score rd)))
                            (enqueue (SetHighScore (score rd)) w)
           else w in
  match flowStateTimerRef w with
  | Some id => clearTimeout id w
  | None => w
  end.

(** [activateFlowState] (lines 141-154). *)
Definition activateFlowState (w : World R) : World R :=
  let w := enqueue (SetIsFlowState true) w in
  let w := enqueue (SetAuraCount 0) w in
  let w := triggerShake 500 w in
  let cx := fst (innerSize w) / num_of_Z 2 in
  let cy := snd (innerSize w) / num_of_Z 2 in
  let w := createParticles cx cy "#00ffff" 100 (sizeGlow 6 true) w in
  let w := createParticles cx cy "#ff00ff" 50 (sizeGlow 4 true) w in
  let w := match flowStateTimerRef w with
           | Some id => clearTimeout id w
           | None => w
           end in
  let (id, w) := setTimeout ExpireFlow FLOW_STATE_DURATION w in
  set_flowStateTimerRef (Some id) w.

(** [requestRef.current = requestAnimationFrame(update)] where [update] is
    the function created by the render [rd]. *)
Definition requestAnimationFrame (rd : Render) (w : World R) : World R :=
  let id := nextHandle w in
  set_requestRef (Some id)
    (set_nextHandle (Pos.succ id) (set_frames (frames w ++ [(id, rd)]) w)).

(** The screen x-coordinate of the centre of a lane (lines 177-178 and
    228-230): [(canvas.width / 2) - (LANE_WIDTH * 1.5) + (lane * LANE_WIDTH)
    + (LANE_WIDTH / 2)]. *)
Definition laneCenter (width : R) (lane : Z) : R :=
  width / num_of_Z 2 - num_of_Z LANE_WIDTH * lit 15 10
  + num_of_Z lane * num_of_Z LANE_WIDTH
  + num_of_Z LANE_WIDTH / num_of_Z 2.

Definition hitRange : R :=
  (num_of_Z PLAYER_SIZE + num_of_Z OBSTACLE_SIZE) / num_of_Z 2.

(** The collision test of lines 177-184, for an obstacle in lane [lane] at
    height [y], a canvas of size [width] x [height] and the player lane
    [pl]. *)
Definition collides (width height : R) (pl : Z) (lane : Z) (y : R) : bool :=
  let laneX := laneCenter width lane in
  let playerX := laneCenter width pl in
  let playerY := height - num_of_Z 100 in
  let dx := num_abs (laneX - playerX) in
  let dy := num_abs (y - playerY) in
  (dx <? hitRange) && (dy <? hitRange).

(** The obstacle after [obs.y += speedRef.current]. *)
Definition advance (obs : Obstacle R) (w : World R) : Obstacle R :=
  {| ob_id := ob_id obs; ob_lane := ob_lane obs;
     ob_y := ob_y obs + speedRef w; ob_type := ob_type obs |}.

(** The callback of [obstaclesRef.current.filter] (lines 171-213), as
    created by the render [rd]: the obstacle as mutated, whether it is kept,
    and the world after the side effects of the callback. *)
Definition obstacleCallback (rd : Render) (obs : Obstacle R) (w : World R)
  : bool * Obstacle R * World R :=
  let obs := advance obs w in
  let onScreen := ob_y obs <? snd (innerSize w) + num_of_Z 100 in
  match canvasRef w with
  | Some (width, height) =>
      let laneX := laneCenter width (ob_lane obs) in
      if collides width height (playerLane rd) (ob_lane obs) (ob_y obs) then
        match ob_type obs with
        | AURA =>
            let w := enqueue (BumpAura (isFlowState rd)) w in
            let w := createParticles laneX (ob_y obs) "#00ffff" 20 (sizeGlow 5 true) w in
            let w := createParticles laneX (ob_y obs) "#ffffff" 10 (sizeGlow 2 false) w in
            let w := triggerShake 100 w in
            (false, obs, w)
        | BLOCK =>
            if isFlowState rd then
              let w := createParticles laneX (ob_y obs) "#ff00ff" 30 (sizeGlow 6 true) w in
              let w := enqueue (AddScore 50) w in
              let w := triggerShake 150 w in
              (false, obs, w)
            else
              (false, obs, endGame rd w)
        end
      else (onScreen, obs, w)
  | None => (onScreen, obs, w)
  end.

(** [Array.prototype.filter] with that callback: the elements are visited
    in order, each visit runs the side effects of the callback. *)
Fixpoint filterObstacles (rd : Render) (l : list (Obstacle R)) (w : World R)
  : list (Obstacle R) * World R :=
  match l with
  | [] => ([], w)
  | obs :: rest =>
      let '(keep, obs', w1) := obstacleCallback rd obs w in
      let (kept, w2) := filterObstacles rd rest w1 in
      (if keep then obs' :: kept else kept, w2)
  end.

(** The callback of [particlesRef.current.filter] (lines 216-223). *)
Definition particleCallback (p : Particle R) : bool * Particle R :=
  let life := p_life p - lit 2 100 / p_maxLife p in
  (life >? num_of_Z 0,
   {| p_id := p_id p;
      p_x := p_x p + p_vx p;
      p_y := p_y p + p_vy p;
      p_vx := p_vx p * lit 98 100;
      p_vy := p_vy p * lit 98 100;
      p_life := life;
      p_maxLife := p_maxLife p;
      p_color := p_color p;
      p_size := p_size p;
      p_glow := p_glow p |}).

Fixpoint filterParticles (l : list (Particle R)) : list (Particle R) :=
  match l with
  | [] => []
  | p :: rest =>
      let (keep, p') := particleCallback p in
      if keep then p' :: filterParticles rest else filterParticles rest
  end.

(** The player trail (lines 225-242). *)
Definition playerTrail (rd : Render) (w : World R) : World R :=
  match canvasRef w with
  | Some (width, height) =>
      let playerX := laneCenter width (playerLane rd) in
      let playerY := height - num_of_Z 100 in
      let (r, w) := random w in
      if r <? (if isFlowState rd then lit 8 10 else lit 3 10) then
        let (rv, w) := random w in
        let options :=
          {| o_vx := Some ((rv - lit 5 10) * num_of_Z 2);
             o_vy := Some (speedRef w * lit 5 10);
             o_size := Some (num_of_Z (if isFlowState rd then 8 else 4));
             o_glow := Some (isFlowState rd);
             o_maxLife := Some (lit 3 10) |} in
        createParticles playerX (playerY + num_of_Z 20)
          (if isFlowState rd then "#ff00ff" else "#00ffff") 1 options w
      else w
  | None => w
  end.

(** The spawn decision (lines 165-168). *)
Definition spawnPhase (w : World R) : World R :=
  let (r, w) := random w in
  if r <? lit 2 100 * (speedRef w / num_of_Z 5) then spawnObstacle w else w.

(** The obstacle pass (lines 170-213). *)
Definition obstaclePass (rd : Render) (w : World R) : World R :=
  let (kept, w) := filterObstacles rd (obstaclesRef w) w in
  set_obstaclesRef kept w.

(** The particle pass (lines 215-223). *)
Definition particlePass (w : World R) : World R :=
  set_particlesRef (filterParticles (particlesRef w)) w.

(** [update] (lines 156-248), as created by the render [rd].  [draw] only
    paints the canvas and is left out. *)
Definition update (rd : Render) (time : R) (w : World R) : World R :=
  if negb (GameState_eqb (gameState rd) PLAYING) then w else
  let w := set_lastTimeRef time w in
  let w := set_speedRef (speedRef w + SPEED_INCREMENT) w in
  let w := spawnPhase w in
  let w := obstaclePass rd w in
  let w := particlePass w in
  let w := playerTrail rd w in
  let w := enqueue (AddScore 1) w in
  requestAnimationFrame rd w.

(** *** Input handlers *)

(** [handleKeyDown] (lines 372-376), as created by the render [rd]; [key]
    is [e.key]. *)
Definition handleKeyDown (rd : Render) (key : string) (w : World R) : World R :=
  if negb (GameState_eqb (gameState rd) PLAYING) then w else
  let w := if String.eqb key "ArrowLeft" then enqueue LaneLeft w else w in
  if String.eqb key "ArrowRight" then enqueue LaneRight w else w.

(** [handleTouchStart] (lines 378-386); [touchX] is
    [e.touches[0].clientX]. *)
Definition handleTouchStart (rd : Render) (touchX : R) (w : World R) : World R :=
  if negb (GameState_eqb (gameState rd) PLAYING) then w else
  if touchX <? fst (innerSize w) / num_of_Z 2
  then enqueue LaneLeft w
  else enqueue LaneRight w.

(** [handleResize] (lines 349-354). *)
Definition handleResize (w : World R) : World R :=
  match canvasRef w with
  | Some _ => set_canvasRef (Some (innerSize w)) w
  | None => w
  end.

(** *** The React runtime *)

(** Applying one queued update.  All updates are pure except the updater of
    [setAuraCount] (lines 186-192), which calls [activateFlowState]: its
    timers and particles are created now, and the state setters it calls
    are queued behind the updates being processed. *)
Definition applyAction (a : Action) (w : World R) : World R :=
  match a with
  | SetGameState g => set_st (set_gameState g (st w)) w
  | SetScore v => set_st (set_score v (st w)) w
  | AddScore k => set_st (set_score (score (st w) + k)%Z (st w)) w
  | SetHighScore v => set_st (set_highScore (Int v) (st w)) w
  | SetAuraCount v => set_st (set_auraCount v (st w)) w
  | BumpAura flowSeen =>
      let next := (auraCount (st w) + 1)%Z in
      let w := if (10 <=? next)%Z && negb flowSeen
               then activateFlowState w else w in
      set_st (set_auraCount next (st w)) w
  | SetIsFlowState b => set_st (set_isFlowState b (st w)) w
  | SetPlayerLane v => set_st (set_playerLane v (st w)) w
  | LaneLeft => set_st (set_playerLane (Z.max 0 (playerLane (st w) - 1)) (st w)) w
  | LaneRight =>
      set_st (set_playerLane (Z.min (LANES - 1) (playerLane (st w) + 1)) (st w)) w
  | SetGameOverText s => set_st (set_gameOverText s (st w)) w
  | SetIsShaking b => set_st (set_isShaking b (st w)) w
  end.

(** One pass over the queue: the updates queued so far are applied in the
    order of the calls; updates queued meanwhile stay in the queue. *)
Definition processQueue (w : World R) : World R :=
  fold_left (fun w a => applyAction a w) (queue w) (set_queue [] w).

(** Rendering computes the new state: the queued updates, then the updates
    queued by an updater while the first were processed (React re-renders
    at once with them).  Those are plain values, so two passes empty the
    queue. *)
Definition renderState (w : World R) : World R :=
  processQueue (processQueue w).

Definition cancelRequest (w : World R) : World R :=
  match requestRef w with
  | Some id => cancelAnimationFrame id w
  | None => w
  end.

(** The effect with dependency [[gameState]] (lines 360-369): when a render
    changes [gameState] from [before], the cleanup of the previous effect
    runs, then the effect of the new render, which schedules the [update]
    of the new render. *)
Definition gameStateEffect (before : GameState) (w : World R) : World R :=
  if GameState_eqb before (gameState (st w)) then w else
  let w := cancelRequest w in
  if GameState_eqb (gameState (st w)) PLAYING
  then requestAnimationFrame (st w) w
  else cancelRequest w.

(** After a callback returns, React renders the component and runs its
    effects. *)
Definition rerender (w : World R) : World R :=
  gameStateEffect (gameState (st w)) (renderState w).

(** The callback of a timeout. *)
Definition runTimer (cb : TimerCallback) (w : World R) : World R :=
  match cb with
  | ExpireFlow => enqueue (SetIsFlowState false) w
  | ClearShake => enqueue (SetIsShaking false) w
  end.

(** The component right after it is mounted: the initial values of the
    hooks and refs (lines 48-67), the canvas sized by the first
    [handleResize] (line 356). *)
Definition mount (inner : R * R) (saved : option string) (now : Z) : World R :=
  {| st := {| gameState := MENU; score := 0; highScore := initialHighScore saved;
              auraCount := 0; isFlowState := false; playerLane := 1;
              gameOverText := ""; isShaking := false |};
     queue := [];
     obstaclesRef := [];
     particlesRef := [];
     speedRef := num_of_Z INITIAL_SPEED;
     lastTimeRef := num_of_Z 0;
     flowStateTimerRef := None;
     shakeTimerRef := None;
     requestRef := None;
     canvasRef := Some inner;
     innerSize := inner;
     clock := now;
     timers := [];
     frames := [];
     nextHandle := 1%positive;
     storage := saved;
     draws := 0%nat |}.

(** What can happen to the mounted component. *)
Inductive Event : Type :=
| Frame (time : R)
| KeyDown (key : string)
| TouchStart (touchX : R)
| ClickStart
| ClickMenu
| TimerFires (id : positive)
| Tick (dt : Z)
| Resize (width height : R).

Definition findTimer (id : positive) (w : World R) : option Timer :=
  find (fun t => Pos.eqb (t_id t) id) (timers w).

(** One event; [None] when the event cannot happen in [w].
    - a frame runs the pending animation-frame callback;
    - key and touch events reach the handlers of the last render;
    - the start button ("START SURFING", "RUN IT BACK") exists in the menu
      and game-over overlays only, the "Back to Menu" button in the
      game-over overlay only;
    - a timeout fires once its time has come, and time does not pass beyond
      a pending timeout (timeouts are punctual). *)
Definition step (e : Event) (w : World R) : option (World R) :=
  match e with
  | Frame time =>
      match frames w with
      | [] => None
      | (_, rd) :: rest => Some (rerender (update rd time (set_frames rest w)))
      end
  | KeyDown key => Some (rerender (handleKeyDown (st w) key w))
  | TouchStart touchX => Some (rerender (handleTouchStart (st w) touchX w))
  | ClickStart =>
      match gameState (st w) with
      | MENU | GAME_OVER => Some (rerender (startGame w))
      | _ => None
      end
  | ClickMenu =>
      match gameState (st w) with
      | GAME_OVER => Some (rerender (enqueue (SetGameState MENU) w))
      | _ => None
      end
  | TimerFires id =>
      match findTimer id w with
      | Some t =>
          if (t_due t <=? clock w)%Z
          then Some (rerender (runTimer (t_cb t) (clearTimeout id w)))
          else None
      | None => None
      end
  | Tick dt =>
      if (0 <? dt)%Z && forallb (fun t => (clock w + dt <=? t_due t)%Z) (timers w)
      then Some (set_clock (clock w + dt)%Z w)
      else None
  | Resize width height =>
      Some (handleResize (set_innerSize (width, height) w))
  end.

(** A sequence of events, from left to right. *)
Fixpoint run (es : list Event) (w : World R) : option (World R) :=
  match es with
  | [] => Some w
  | e :: es' =>
      match step e w with
      | Some w' => run es' w'
      | None => None
      end
  end.

Inductive reachable : World R -> Prop :=
| reach_mount : forall inner saved now, reachable (mount inner saved now)
| reach_step : forall w e w', reachable w -> step e w = Some w' -> reachable w'.

End Component.

(** * Vocabulary of the properties *)

Section Vocabulary.

Context {R : Type} {num : JSNumber R} {host : Host R}.

Local Open Scope js_scope.

(** The refs and browser state that only [startGame], [update] itself, the
    frame scheduler, the clock and resizing touch. *)
Definition stage (w : World R) :=
  (obstaclesRef w, speedRef w, lastTimeRef w, requestRef w, canvasRef w,
   innerSize w, clock w, frames w).

(** Whether the collision test of [update] declares a collision for [obs]
    in this frame, and whether an obstacle that does not collide stays. *)
Definition hits (rd : Render) (w : World R) (obs : Obstacle R) : bool :=
  match canvasRef w with
  | Some (width, height) =>
      collides width height (playerLane rd) (ob_lane obs) (ob_y (advance obs w))
  | None => false
  end.

Definition onScreen (w : World R) (obs : Obstacle R) : bool :=
  ob_y (advance obs w) <? snd (innerSize w) + num_of_Z 100.

(** The obstacles that remain after the pass: those that neither collide
    nor have left the screen, moved down by the fall speed. *)
Definition survivors (rd : Render) (w : World R) (l : list (Obstacle R))
  : list (Obstacle R) :=
  map (fun obs => advance obs w)
      (filter (fun obs => negb (hits rd w obs) && onScreen w obs) l).

(** What a queue of state updates holds: the number of calls of the aura
    updater, the sum of the score increments, whether the run was ended. *)
Definition isBump (a : Action) : bool :=
  match a with BumpAura _ => true | _ => false end.

Definition bumps (q : list Action) : Z := Z.of_nat (List.length (filter isBump q)).

Definition gain (a : Action) : Z :=
  match a with AddScore k => k | _ => 0 end.

Definition gains (q : list Action) : Z := fold_right (fun a s => gain a + s)%Z 0%Z q.

Definition isEnd (a : Action) : bool :=
  match a with SetGameState GAME_OVER => true | _ => false end.

Definition ended (q : list Action) : bool := existsb isEnd q.

(** The updates [update] queues when the render that created it is [rd]. *)
Definition frameAct (rd : Render) (a : Action) : Prop :=
  match a with
  | BumpAura f => f = isFlowState rd
  | AddScore k => k = 1%Z \/ (k = 50%Z /\ isFlowState rd = true)
  | SetGameState g => g = GAME_OVER /\ isFlowState rd = false
  | SetGameOverText _ => True
  | SetHighScore v => v = score rd /\ gt_jsint (score rd) (highScore rd) = true
  | SetIsShaking b => b = true
  | _ => False
  end.

(** The number of obstacles of [l] that collide in this frame and have the
    given type, and whether some Block collides. *)
Definition isType (ty : ObstacleType) (obs : Obstacle R) : bool :=
  match ty, ob_type obs with
  | BLOCK, BLOCK | AURA, AURA => true
  | _, _ => false
  end.

Definition collisions (ty : ObstacleType) (rd : Render) (w : World R)
  (l : list (Obstacle R)) : Z :=
  Z.of_nat (List.length (filter (fun obs => hits rd w obs && isType ty obs) l)).

(** The world at the start of the obstacle pass of a frame: the time stamp
    is recorded, the speed increased, the spawn decision taken. *)
Definition beforePass (time : R) (w : World R) : World R :=
  spawnPhase (set_speedRef (speedRef w + SPEED_INCREMENT) (set_lastTimeRef time w)).

(** The new state computed by one queued update (the state part of
    [applyAction]). *)
Definition reduce (s : Render) (a : Action) : Render :=
  match a with
  | SetGameState g => set_gameState g s
  | SetScore v => set_score v s
  | AddScore k => set_score (score s + k)%Z s
  | SetHighScore v => set_highScore (Int v) s
  | SetAuraCount v => set_auraCount v s
  | BumpAura _ => set_auraCount (auraCount s + 1)%Z s
  | SetIsFlowState b => set_isFlowState b s
  | SetPlayerLane v => set_playerLane v s
  | LaneLeft => set_playerLane (Z.max 0 (playerLane s - 1)) s
  | LaneRight => set_playerLane (Z.min (LANES - 1) (playerLane s + 1)) s
  | SetGameOverText t => set_gameOverText t s
  | SetIsShaking b => set_isShaking b s
  end.

(** Whether the aura updater, run on the state [s], calls
    [activateFlowState]. *)
Definition activates (s : Render) (a : Action) : bool :=
  match a with
  | BumpAura flowSeen => (10 <=? auraCount s + 1)%Z && negb flowSeen
  | _ => false
  end.

Definition activationUpdates : list Action :=
  [SetIsFlowState true; SetAuraCount 0; SetIsShaking true].

(** The updates queued by the updaters while the queue [q] is processed
    from the state [s]. *)
Fixpoint nested (q : list Action) (s : Render) : list Action :=
  match q with
  | [] => []
  | a :: q' =>
      (if activates s a then activationUpdates else []) ++ nested q' (reduce s a)
  end.

(** The render whose [update] drives the loop of a run is the render in
    which [gameState] became [PLAYING]: [startGame] has just reset the
    state. *)
Definition closureOk (rd : Render) : Prop :=
  gameState rd = PLAYING /\ score rd = 0%Z /\ auraCount rd = 0%Z /\
  isFlowState rd = false /\ playerLane rd = 1%Z.

(** The frame loop runs exactly while the game is being played: then one
    frame is pending, the one recorded in [requestRef]. *)
Definition loopOk (w : World R) : Prop :=
  match frames w with
  | [] => gameState (st w) <> PLAYING
  | [(id, rd)] => requestRef w = Some id /\ closureOk rd /\ gameState (st w) = PLAYING
  | _ => False
  end.

Definition stateOk (w : World R) : Prop :=
  queue w = [] /\
  (0 <= auraCount (st w) < 10)%Z /\
  (0 <= playerLane (st w) <= 2)%Z /\
  (0 <= score (st w))%Z /\
  gameState (st w) <> SHOP.

(** The pending timeouts after [if (ref.current) clearTimeout(ref.current)]. *)
Definition withoutTimer (ref : option positive) (ts : list Timer) : list Timer :=
  match ref with
  | Some id => filter (fun t => negb (Pos.eqb (t_id t) id)) ts
  | None => ts
  end.

(** The updates queued by the two input handlers. *)
Definition keyActions (rd : Render) (key : string) : list Action :=
  if negb (GameState_eqb (gameState rd) PLAYING) then []
  else (if String.eqb key "ArrowLeft" then [LaneLeft] else [])
       ++ (if String.eqb key "ArrowRight" then [LaneRight] else []).

Definition touchActions (rd : Render) (touchX : R) (w : World R) : list Action :=
  if negb (GameState_eqb (gameState rd) PLAYING) then []
  else if touchX <? fst (innerSize w) / num_of_Z 2 then [LaneLeft] else [LaneRight].

(** The updates queued by [startGame]. *)
Definition startActions : list Action :=
  [SetGameState PLAYING; SetScore 0; SetAuraCount 0; SetIsFlowState false;
   SetPlayerLane 1].

(** What holds of the component between two events. *)
Definition Inv (w : World R) : Prop := stateOk w /\ loopOk w.

(** Counting the frames of a sequence of events, and recognising the start
    command. *)
Definition isFrame (e : Event (R := R)) : bool :=
  match e with Frame _ => true | _ => false end.

Definition isStart (e : Event (R := R)) : bool :=
  match e with ClickStart => true | _ => false end.

Definition frameCount (es : list (Event (R := R))) : nat :=
  List.length (filter isFrame es).


(** The pending timeouts of each kind. *)
Definition isFlowTimer (t : Timer) : bool :=
  match t_cb t with ExpireFlow => true | ClearShake => false end.


Definition flowTimers (w : World R) : list Timer := filter isFlowTimer (timers w).





(** The number of obstacles of the given type that collide in the frame
    that is pending in [w], would it run now. *)
Definition frameHits (ty : ObstacleType) (time : R) (w : World R) : Z :=
  match frames w with
  | (_, rd) :: rest =>
      let w0 := beforePass time (set_frames rest w) in
      collisions ty rd w0 (obstaclesRef w0)
  | [] => 0%Z
  end.


(** The render whose [update] is pending in a world. *)
Definition pendingClosure (w : World R) : Render :=
  match frames w with
  | (_, rd) :: _ => rd
  | [] => st w
  end.

End Vocabulary.

(** * Scenarios *)

(** Concrete hosts and worlds on which the properties are exercised.  In
    all of them [Math.cos] and [Math.sin] are constant: the properties do not
    depend on the direction in which particles fly. *)

(** A host whose random source always answers 0.9: nothing is spawned and
    no trail particle is emitted. *)
Definition quietHost : Host Q :=
  {| Math_random := fun _ => 9 # 10;
     Math_cos := fun _ => 1%Q;
     Math_sin := fun _ => 0%Q;
     Math_PI := 355 # 113 |}.


(** A freshly mounted game in a window of 300 by 40 pixels, with nothing
    in local storage. *)
Definition freshGame : World Q := mount (inject_Z 300, inject_Z 40) None 0.


(** The fresh game after the start button was pressed. *)
Definition startedGame : World Q :=
  match step (host := quietHost) ClickStart freshGame with
  | Some w => w
  | None => freshGame
  end.


(** A host whose random source reads a script and answers 0.9 once the
    script is exhausted. *)
Definition scriptedHost (script : list Q) : Host Q :=
  {| Math_random := fun n => nth n script (9 # 10);
     Math_cos := fun _ => 1%Q;
     Math_sin := fun _ => 0%Q;
     Math_PI := 355 # 113 |}.

(** The draws of one frame.  In the 40 pixel high window an obstacle
    spawned in the player's lane collides in the frame that spawns it.
    - [idleFrame]: no spawn, no trail;
    - [auraFrame]: spawn (0 < 0.02), lane 1 (0.5 x 3), Aura (0.9 > 0.8), id,
      the 150 draws of the two bursts of 20 and 10 particles, no trail;
    - [blockFrame]: spawn, lane 1, Block (0 > 0.8 fails), id, the draw of
      the game-over message, no trail;
    - [activationDraws]: the 750 draws of the two bursts of
      [activateFlowState]. *)
Definition idleFrame : list Q := [9 # 10; 9 # 10].

Definition auraFrame : list Q :=
  [0%Q; 1 # 2; 9 # 10; 0%Q] ++ repeat (1 # 2) 150 ++ [9 # 10].

Definition blockFrame : list Q := [0%Q; 1 # 2; 0%Q; 0%Q; 0%Q; 9 # 10].

Definition activationDraws : list Q := repeat (1 # 2) 750.

Definition frameAt (ms : Z) : Event (R := Q) := Frame (inject_Z ms).

(** Three frames, a Block in the third. *)
Definition crashHost : Host Q := scriptedHost (idleFrame ++ idleFrame ++ blockFrame).

Definition crashTrace : list (Event (R := Q)) :=
  [ClickStart; frameAt 16; frameAt 33; frameAt 50].

(** Ten Auras, one per frame, then a Block. *)
Definition powerHost : Host Q :=
  scriptedHost (List.concat (repeat auraFrame 10) ++ activationDraws ++ blockFrame).

Definition nineAuras : list (Event (R := Q)) :=
  ClickStart :: map frameAt [16; 33; 50; 66; 83; 100; 116; 133; 150].

Definition tenAuras : list (Event (R := Q)) := nineAuras ++ [frameAt 166].

(** An Aura, then a Block. *)
Definition shakeHost : Host Q := scriptedHost (auraFrame ++ blockFrame).

Definition shakeTrace : list (Event (R := Q)) := [ClickStart; frameAt 16; frameAt 33].

(** The world a trace leads to ([freshGame] when the trace cannot run). *)
Definition after {host : Host Q} (es : list (Event (R := Q))) (w : World Q) : World Q :=
  match run es w with
  | Some w' => w'
  | None => freshGame
  end.

(** A Block and an Aura spawned in a tall window; the window is then
    shrunk, so that both collide in the third frame, the Block first. *)
Definition tallGame : World Q := mount (inject_Z 300, inject_Z 1000) None 0.

Definition pileUpHost : Host Q :=
  scriptedHost
    ([0%Q; 1 # 2; 0%Q; 0%Q; 9 # 10] ++ [0%Q; 1 # 2; 9 # 10; 0%Q; 9 # 10]
     ++ [9 # 10; 0%Q] ++ repeat (1 # 2) 150 ++ [9 # 10]).

Definition pileUpTrace : list (Event (R := Q)) :=
  [ClickStart; frameAt 16; frameAt 33; Resize (inject_Z 300) (inject_Z 40)].



Definition poweredGame : World Q := after (host := powerHost) tenAuras freshGame.

Definition pileUpGame : World Q := after (host := pileUpHost) pileUpTrace tallGame.



(** ** Painting *)

(** The calls [draw] makes on the 2D context of the canvas, in order. *)
Inductive CanvasOp (R : Type) : Type :=
| ClearRect (x y w h : R)
| Translate (x y : R)
| SetTransform (a b c d e f : R)
| StrokeStyle (color : string)
| FillStyle (color : string)
| LineWidth (n : R)
| GlobalAlpha (a : R)
| ShadowBlur (b : R)
| ShadowColor (color : string)
| BeginPath
| ClosePath
| MoveTo (x y : R)
| LineTo (x y : R)
| Arc (x y radius startAngle endAngle : R)
| FillRect (x y w h : R)
| Stroke
| Fill.

Arguments BeginPath {R}.
Arguments ClosePath {R}.
Arguments Stroke {R}.
Arguments Fill {R}.
Arguments StrokeStyle {R} color.
Arguments FillStyle {R} color.
Arguments ShadowColor {R} color.

(** The remainder operator [%] of the language. *)
Class JSRemainder (R : Type) : Type := num_rem : R -> R -> R.

(** On exact numbers: the dividend minus the divisor times the quotient
    truncated towards zero. *)
#[export] Instance Q_JSRemainder : JSRemainder Q :=
  fun a b =>
    let q := (a / b)%Q in
    (a - b * inject_Z (Z.quot (Qnum q) (Zpos (Qden q))))%Q.

Section Painting.

Context {R : Type} {num : JSNumber R} {host : Host R} {rem : JSRemainder R}.

Local Open Scope js_scope.

Definition lineSpacing : R := num_of_Z 100.

(** The x-coordinate of the left edge of the highway (lines 266-267). *)
Definition highwayStart (width : R) : R :=
  width / num_of_Z 2 - num_of_Z LANE_WIDTH * lit 15 10.

(** The body of the loop over [i <= LANES] (lines 273-277), for the
    [LANES + 1 - k] values of [i] from [i] on. *)
Fixpoint laneLines (k : nat) (i : Z) (startX height : R) : list (CanvasOp R) :=
  match k with
  | O => []
  | S k' =>
      let x := startX + num_of_Z i * num_of_Z LANE_WIDTH in
      MoveTo x (num_of_Z 0) :: LineTo x height :: laneLines k' (i + 1)%Z startX height
  end.

(** The loop [for (let y = offset; y < canvas.height; y += lineSpacing)]
    (lines 284-289), run for at most [fuel] iterations. *)
Fixpoint movingLines (fuel : nat) (startX y height : R) : list (CanvasOp R) :=
  match fuel with
  | O => []
  | S k =>
      if y <? height then
        BeginPath :: MoveTo startX y
        :: LineTo (startX + num_of_Z LANES * num_of_Z LANE_WIDTH) y
        :: Stroke :: movingLines k startX (y + lineSpacing) height
      else []
  end.

(** Iterations that suffice for a start value above [- lineSpacing]. *)
Definition lineFuel (height : R) : nat :=
  2 + Z.to_nat (num_floor (height / lineSpacing)).

(** The callback of [obstaclesRef.current.forEach] (lines 293-308). *)
Definition drawObstacle (startX : R) (obs : Obstacle R) : list (CanvasOp R) :=
  let x := startX + num_of_Z (ob_lane obs) * num_of_Z LANE_WIDTH
           + num_of_Z LANE_WIDTH / num_of_Z 2 in
  [ShadowBlur (num_of_Z 15);
   ShadowColor (match ob_type obs with AURA => "#00ffff" | BLOCK => "#ff00ff" end)]
  ++ match ob_type obs with
     | AURA =>
         [FillStyle "#00ffff"; BeginPath;
          Arc x (ob_y obs) (num_of_Z AURA_SIZE / num_of_Z 2) (num_of_Z 0)
            (Math_PI * num_of_Z 2);
          Fill]
     | BLOCK =>
         [FillStyle "#ff00ff";
          FillRect (x - num_of_Z OBSTACLE_SIZE / num_of_Z 2)
            (ob_y obs - num_of_Z OBSTACLE_SIZE / num_of_Z 2)
            (num_of_Z OBSTACLE_SIZE) (num_of_Z OBSTACLE_SIZE)]
     end
  ++ [ShadowBlur (num_of_Z 0)].

(** The player (lines 311-325), as the render [rd] sees it. *)
Definition drawPlayer (rd : Render) (startX height : R) : list (CanvasOp R) :=
  let playerX := startX + num_of_Z (playerLane rd) * num_of_Z LANE_WIDTH
                 + num_of_Z LANE_WIDTH / num_of_Z 2 in
  let playerY := height - num_of_Z 100 in
  let half := num_of_Z PLAYER_SIZE / num_of_Z 2 in
  [ShadowBlur (num_of_Z 20);
   ShadowColor (if isFlowState rd then "#00ffff" else "#bc13fe");
   FillStyle (if isFlowState rd then "#00ffff" else "white");
   BeginPath;
   MoveTo playerX (playerY - half);
   LineTo (playerX - half) (playerY + half);
   LineTo (playerX + half) (playerY + half);
   ClosePath;
   Fill;
   ShadowBlur (num_of_Z 0)].

(** The callback of [particlesRef.current.forEach] (lines 328-339). *)
Definition drawParticle (p : Particle R) : list (CanvasOp R) :=
  [GlobalAlpha (p_life p); FillStyle (p_color p)]
  ++ (if p_glow p
      then [ShadowBlur (num_of_Z 10 * p_life p); ShadowColor (p_color p)] else [])
  ++ [BeginPath;
      Arc (p_x p) (p_y p) (p_size p * p_life p) (num_of_Z 0) (Math_PI * num_of_Z 2);
      Fill;
      ShadowBlur (num_of_Z 0)].

(** What [draw] paints between the shake and the reset of the transform
    (lines 266-340): the lane dividers, the moving lines, the obstacles, the
    player and the particles. *)
Definition picture (rd : Render) (width height : R) (w : World R)
  : list (CanvasOp R) :=
  let startX := highwayStart width in
  let offset := num_rem (num_of_Z (clock w) * speedRef w * lit 1 10) lineSpacing in
  [StrokeStyle (if isFlowState rd then "#ff00ff" else "#bc13fe");
   LineWidth (num_of_Z 2); BeginPath]
  ++ laneLines (S (Z.to_nat LANES)) 0 startX height
  ++ [Stroke; GlobalAlpha (lit 3 10)]
  ++ movingLines (lineFuel height) startX offset height
  ++ [GlobalAlpha (num_of_Z 1)]
  ++ flat_map (drawObstacle startX) (obstaclesRef w)
  ++ drawPlayer rd startX height
  ++ flat_map drawParticle (particlesRef w)
  ++ [GlobalAlpha (num_of_Z 1)].

(** [draw] (lines 250-346), as created by the render [rd]: the calls on the
    context, and the world after the two calls of [Math.random] a shaking
    frame makes.  The canvas has a 2D context; [performance.now()] is read
    off the clock. *)
Definition draw (rd : Render) (w : World R) : list (CanvasOp R) * World R :=
  match canvasRef w with
  | None => ([], w)
  | Some (width, height) =>
      let clear := ClearRect (num_of_Z 0) (num_of_Z 0) width height in
      if isShaking rd then
        let (r1, w) := random w in
        let sx := (r1 - lit 5 10) * num_of_Z 10 in
        let (r2, w) := random w in
        let sy := (r2 - lit 5 10) * num_of_Z 10 in
        (clear :: Translate sx sy
         :: picture rd width height w
         ++ [SetTransform (num_of_Z 1) (num_of_Z 0) (num_of_Z 0) (num_of_Z 1)
               (num_of_Z 0) (num_of_Z 0)],
         w)
      else (clear :: picture rd width height w, w)
  end.

(** [update] with its call of [draw] (line 246): the calls on the context
    and the world after the frame. *)
Definition paintedUpdate (rd : Render) (time : R) (w : World R)
  : list (CanvasOp R) * World R :=
  if negb (GameState_eqb (gameState rd) PLAYING) then ([], w) else
  let w := set_lastTimeRef time w in
  let w := set_speedRef (speedRef w + SPEED_INCREMENT) w in
  let w := spawnPhase w in
  let w := obstaclePass rd w in
  let w := particlePass w in
  let w := playerTrail rd w in
  let w := enqueue (AddScore 1) w in
  let (ops, w) := draw rd w in
  (ops, requestAnimationFrame rd w).

(** The part of the context state that [draw] sets: the opacity, the
    shadow blur, and the translations applied since the transform was last
    set to the identity. *)
Record Pen : Type := {
  alpha : R;
  blur : R;
  offsets : list (R * R)
}.

Definition penStep (p : Pen) (op : CanvasOp R) : Pen :=
  match op with
  | GlobalAlpha a => {| alpha := a; blur := blur p; offsets := offsets p |}
  | ShadowBlur b => {| alpha := alpha p; blur := b; offsets := offsets p |}
  | Translate x y => {| alpha := alpha p; blur := blur p; offsets := (x, y) :: offsets p |}
  | SetTransform _ _ _ _ _ _ => {| alpha := alpha p; blur := blur p; offsets := [] |}
  | _ => p
  end.

Definition penRun (ops : list (CanvasOp R)) (p : Pen) : Pen := fold_left penStep ops p.

(** The number of shapes filled. *)
Definition isShape (op : CanvasOp R) : bool :=
  match op with
  | Fill | FillRect _ _ _ _ => true
  | _ => false
  end.

End Painting.

(** ** What is rendered *)






(** ** Vocabulary of the further properties *)

Section Inventory.

Context {R : Type} {num : JSNumber R} {host : Host R}.

Local Open Scope js_scope.

(** The particle pushed by the iteration of [createParticles] that starts
    with [d] calls to [Math.random] made so far. *)
Definition newParticle (x y : R) (color : string) (options : Options R) (d : nat)
  : Particle R :=
  let angle := Math_random d * Math_PI * num_of_Z 2 in
  let speed := Math_random (1 + d) * num_of_Z 8 + num_of_Z 2 in
  {| p_id := Math_random (2 + d);
     p_x := x;
     p_y := y;
     p_vx := spread (o_vx options) (Math_cos angle * speed);
     p_vy := spread (o_vy options) (Math_sin angle * speed);
     p_life := num_of_Z 1;
     p_maxLife := spread (o_maxLife options)
                    (Math_random (3 + d) * lit 5 10 + lit 5 10);
     p_color := color;
     p_size := spread (o_size options) (Math_random (4 + d) * num_of_Z 4 + num_of_Z 2);
     p_glow := spread (o_glow options) true |}.

(** The particles pushed by [createParticles], first to last. *)
Fixpoint newParticles (x y : R) (color : string) (options : Options R)
  (count d : nat) : list (Particle R) :=
  match count with
  | O => []
  | S n => newParticle x y color options d
           :: newParticles x y color options n (5 + d)
  end.

(** A property of all particles of a world. *)
Definition particlesOk (PP : Particle R -> Prop) (w : World R) : Prop :=
  Forall PP (particlesRef w).


(** The game-over messages [endGame] can choose: those at the index it
    computes from some random number. *)
Definition drawnMessage (m : string) : Prop :=
  exists n,
    m = message_at
          (num_floor (Math_random n * num_of_Z (Z.of_nat (List.length gameOverMessages)))).

Definition isText (a : Action) : bool :=
  match a with SetGameOverText _ => true | _ => false end.

Definition hasText (q : list Action) : bool := existsb isText q.

(** The updates [update] queues, with the messages among them. *)
Definition frameUpdate (rd : Render) (a : Action) : Prop :=
  frameAct rd a /\
  match a with
  | SetGameOverText m => drawnMessage m
  | _ => True
  end.






End Inventory.

(** *** In exact arithmetic *)

(** What holds of every particle of the game when numbers are exact: its
    life is in (0, 1], its [maxLife] in [0.3, 1], and its size is
    positive. *)
Definition lively (p : Particle Q) : Prop :=
  (0 < p_life p <= 1 /\ 3 # 10 <= p_maxLife p <= 1 /\ 0 < p_size p)%Q.

(** The arguments the context accepts: [arc] throws on a negative radius,
    and an opacity outside [0, 1] or a negative blur is ignored. *)
Definition accepted (op : CanvasOp Q) : Prop :=
  match op with
  | Arc _ _ radius _ _ => (0 <= radius)%Q
  | GlobalAlpha a => (0 <= a <= 1)%Q
  | ShadowBlur b => (0 <= b)%Q
  | _ => True
  end.

(** A particle that has been through [k] particle passes at least. *)
Definition decayed (k : nat) (p : Particle Q) : Prop :=
  (p_life p <= 1 - inject_Z (Z.of_nat k) * (2 # 100) /\ 0 < p_maxLife p <= 1)%Q.

(** [Math.random] returns a number of [0, 1). *)
Definition unitRandom (host : Host Q) : Prop :=
  forall n, (0 <= Math_random n < 1)%Q.

Definition inUnit (r : Q) : bool := Qle_bool 0 r && negb (Qle_bool 1 r).

(** ** More scenarios *)

(** The run of [shakeTrace] has ended while the screen shakes; the game is
    started again before the shake timer fires. *)
Definition shakenGame : World Q := after (host := shakeHost) shakeTrace freshGame.

Definition restartedGame : World Q := after (host := shakeHost) [ClickStart] shakenGame.

(** The run of [crashTrace], from an empty storage and from a stored high
    score of 2. *)
Definition crashedGame : World Q := after (host := crashHost) crashTrace freshGame.

Definition savedTwo : World Q := mount (inject_Z 300, inject_Z 40) (Some "2"%string) 0.

Definition beatenGame : World Q := after (host := crashHost) crashTrace savedTwo.

(** The tall window after one frame and after two: the obstacles spawned
    are far above the player. *)
Definition tallStarted : World Q :=
  after (host := pileUpHost) [ClickStart; frameAt 16] tallGame.

Definition tallSecond : World Q := after (host := pileUpHost) [frameAt 33] tallStarted.

(** The player moves to the left lane while the two obstacles fall. *)
Definition steeredGame : World Q :=
  after (host := pileUpHost) [KeyDown "ArrowLeft"] tallSecond.

(** The frame after the activation of power mode, which meets a Block. *)
Definition crashedPowered : World Q := after (host := powerHost) [frameAt 183] poweredGame.

(** The first frame of a run, with an early and with a late time stamp. *)
Definition firstFrame : World Q := after (host := quietHost) [frameAt 16] startedGame.

Definition lateFrame : World Q := after (host := quietHost) [frameAt 1000] startedGame.

(** The context of a canvas nobody has drawn on. *)
Definition freshPen : Pen (R := Q) := {| alpha := 1%Q; blur := 0%Q; offsets := [] |}.

(** * Properties *)

Unset Implicit Arguments.

(** Computes the fields of worlds and states built by the setters. *)
Ltac wsimpl :=
  cbn [st queue obstaclesRef particlesRef speedRef lastTimeRef flowStateTimerRef
       shakeTimerRef requestRef canvasRef innerSize clock timers frames nextHandle
       storage draws set_st set_queue set_obstaclesRef set_particlesRef set_speedRef
       set_lastTimeRef set_flowStateTimerRef set_shakeTimerRef set_requestRef
       set_canvasRef set_innerSize set_clock set_timers set_frames set_nextHandle
       set_storage set_draws gameState score highScore auraCount isFlowState playerLane
       gameOverText isShaking set_gameState set_score set_highScore set_auraCount
       set_isFlowState set_playerLane set_gameOverText set_isShaking].

Ltac wsimpl_in H :=
  cbn [st queue obstaclesRef particlesRef speedRef lastTimeRef flowStateTimerRef
       shakeTimerRef requestRef canvasRef innerSize clock timers frames nextHandle
       storage draws set_st set_queue set_obstaclesRef set_particlesRef set_speedRef
       set_lastTimeRef set_flowStateTimerRef set_shakeTimerRef set_requestRef
       set_canvasRef set_innerSize set_clock set_timers set_frames set_nextHandle
       set_storage set_draws gameState score highScore auraCount isFlowState playerLane
       gameOverText isShaking set_gameState set_score set_highScore set_auraCount
       set_isFlowState set_playerLane set_gameOverText set_isShaking] in H.

(** ** What each function leaves alone *)

Section Frames.

Context {R : Type} {num : JSNumber R} {host : Host R}.

Local Open Scope js_scope.

Lemma createParticle_nf (x y : R) (color : string) (options : Options R) (w : World R) :
  exists p,
    createParticle x y color options w
    = set_particlesRef (particlesRef w ++ [p]) (set_draws (5 + draws w) w).
Proof. unfold createParticle, random. eexists. reflexivity. Qed.

Lemma set_particles_draws_twice (ps ps' : list (Particle R)) (d d' : nat) (w : World R) :
  set_particlesRef ps' (set_draws d' (set_particlesRef ps (set_draws d w)))
  = set_particlesRef ps' (set_draws d' w).
Proof. reflexivity. Qed.

(** [createParticles] appends [count] particles and advances the random
    source by five draws per particle; nothing else changes. *)
Lemma createParticles_nf (x y : R) (color : string) (count : nat)
  (options : Options R) (w : World R) :
  exists ps, List.length ps = count /\
    createParticles x y color count options w
    = set_particlesRef (particlesRef w ++ ps) (set_draws (5 * count + draws w) w).
Proof.
  revert w. induction count as [|n IH]; intros w.
  - exists []. split; [reflexivity|].
    cbn [createParticles]. rewrite app_nil_r. destruct w; reflexivity.
  - cbn [createParticles].
    destruct (createParticle_nf x y color options w) as (p & ->).
    destruct (IH (set_particlesRef (particlesRef w ++ [p]) (set_draws (5 + draws w) w)))
      as (ps & Hlen & ->).
    exists (p :: ps). split; [cbn [List.length]; f_equal; exact Hlen|].
    rewrite set_particles_draws_twice.
    cbn [particlesRef set_particlesRef draws set_draws].
    rewrite <- app_assoc. cbn [app].
    replace (5 * n + (5 + draws w))%nat with (5 * S n + draws w)%nat by lia.
    reflexivity.
Qed.

Opaque createParticles.

(** Replaces every call of [createParticles] in the goal by its effect. *)
Ltac abstract_particles :=
  repeat match goal with
         | |- context [createParticles ?x ?y ?c ?n ?o ?w] =>
             let ps := fresh "ps" in
             destruct (createParticles_nf x y c n o w) as (ps & _ & ->)
         end.

Lemma triggerShake_nf (d : Z) (w : World R) :
  triggerShake d w
  = set_shakeTimerRef (Some (nextHandle w))
      (set_nextHandle (Pos.succ (nextHandle w))
         (set_timers
            (withoutTimer (shakeTimerRef w) (timers w)
             ++ [{| t_id := nextHandle w; t_due := (clock w + d)%Z; t_cb := ClearShake |}])
            (set_queue (queue w ++ [SetIsShaking true]) w))).
Proof.
  unfold triggerShake, setTimeout, clearTimeout, enqueue, withoutTimer.
  cbn. destruct (shakeTimerRef w); reflexivity.
Qed.

Lemma endGame_nf (rd : Render) (w : World R) :
  endGame rd w
  = set_timers (withoutTimer (flowStateTimerRef w) (timers w))
      (set_storage
         (if gt_jsint (score rd) (highScore rd)
          then Some (toString (score rd)) else storage w)
         (set_queue
            (queue w
             ++ SetGameState GAME_OVER
                :: SetGameOverText
                     (message_at
                        (num_floor
                           (Math_random (draws w)
                            * num_of_Z (Z.of_nat (List.length gameOverMessages)))))
                :: (if gt_jsint (score rd) (highScore rd)
                    then [SetHighScore (score rd)] else []))
            (set_draws (S (draws w)) w))).
Proof.
  unfold endGame, random, clearTimeout, enqueue, withoutTimer. cbn.
  destruct (gt_jsint (score rd) (highScore rd)); cbn;
    destruct (flowStateTimerRef w); cbn; rewrite <- ?app_assoc; reflexivity.
Qed.

Lemma activateFlowState_nf (w : World R) :
  exists ps,
    activateFlowState w
    = set_flowStateTimerRef (Some (Pos.succ (nextHandle w)))
        (set_shakeTimerRef (Some (nextHandle w))
           (set_nextHandle (Pos.succ (Pos.succ (nextHandle w)))
              (set_timers
                 (withoutTimer (flowStateTimerRef w)
                    (withoutTimer (shakeTimerRef w) (timers w)
                     ++ [{| t_id := nextHandle w; t_due := (clock w + 500)%Z;
                            t_cb := ClearShake |}])
                  ++ [{| t_id := Pos.succ (nextHandle w);
                         t_due := (clock w + FLOW_STATE_DURATION)%Z;
                         t_cb := ExpireFlow |}])
                 (set_queue (queue w ++ activationUpdates)
                    (set_particlesRef (particlesRef w ++ ps)
                       (set_draws (750 + draws w) w)))))).
Proof.
  unfold activateFlowState. abstract_particles.
  rewrite triggerShake_nf. exists (ps0 ++ ps).
  unfold setTimeout, clearTimeout, enqueue, withoutTimer, activationUpdates. cbn.
  rewrite <- !app_assoc. cbn.
  destruct (flowStateTimerRef w); reflexivity.
Qed.

Opaque triggerShake endGame activateFlowState.

(** ** The obstacle pass, summarised *)

Lemma bumps_app q1 q2 : bumps (q1 ++ q2) = (bumps q1 + bumps q2)%Z.
Proof. unfold bumps. rewrite filter_app, length_app. lia. Qed.

Lemma gains_app q1 q2 : gains (q1 ++ q2) = (gains q1 + gains q2)%Z.
Proof. unfold gains. induction q1 as [|a q1 IH]; cbn; [reflexivity|]. rewrite IH. lia. Qed.

Lemma ended_app q1 q2 : ended (q1 ++ q2) = ended q1 || ended q2.
Proof. apply existsb_app. Qed.

Lemma stage_hits (rd : Render) (w1 w2 : World R) obs : stage w1 = stage w2 -> hits rd w1 obs = hits rd w2 obs.
Proof.
  unfold stage, hits, advance. intros E.
  injection E as _ E2 _ _ E5 _ _ _. now rewrite E2, E5.
Qed.

Lemma stage_onScreen (w1 w2 : World R) obs : stage w1 = stage w2 -> onScreen w1 obs = onScreen w2 obs.
Proof.
  unfold stage, onScreen, advance. intros E.
  injection E as _ E2 _ _ _ E6 _ _. now rewrite E2, E6.
Qed.

Lemma stage_advance (w1 w2 : World R) obs : stage w1 = stage w2 -> advance obs w1 = advance obs w2.
Proof.
  unfold stage, advance. intros E.
  injection E as _ E2 _ _ _ _ _ _. now rewrite E2.
Qed.

Lemma stage_survivors (rd : Render) (w1 w2 : World R) l :
  stage w1 = stage w2 -> survivors rd w1 l = survivors rd w2 l.
Proof.
  intros E. unfold survivors.
  rewrite (map_ext _ _ (fun obs => stage_advance w1 w2 obs E)).
  f_equal. apply filter_ext. intros obs.
  now rewrite (stage_hits rd w1 w2 obs E), (stage_onScreen w1 w2 obs E).
Qed.

Lemma stage_collisions ty (rd : Render) (w1 w2 : World R) l :
  stage w1 = stage w2 -> collisions ty rd w1 l = collisions ty rd w2 l.
Proof.
  intros E. unfold collisions. do 2 f_equal. apply filter_ext. intros obs.
  now rewrite (stage_hits rd w1 w2 obs E).
Qed.

(** The callback of the obstacle filter: what it returns and what it
    queues, for each of the four outcomes. *)
Lemma obstacleCallback_spec (rd : Render) obs (w : World R) :
  exists q,
    let '(keep, obs', w') := obstacleCallback rd obs w in
    keep = negb (hits rd w obs) && onScreen w obs /\
    obs' = advance obs w /\
    stage w' = stage w /\ st w' = st w /\
    flowStateTimerRef w' = flowStateTimerRef w /\
    queue w' = queue w ++ q /\
    Forall (frameAct rd) q /\
    bumps q = (if hits rd w obs && isType AURA obs then 1 else 0)%Z /\
    gains q = (if hits rd w obs && isType BLOCK obs && isFlowState rd then 50 else 0)%Z /\
    ended q = hits rd w obs && isType BLOCK obs && negb (isFlowState rd).
Proof.
  unfold obstacleCallback, hits, onScreen, isType.
  destruct (canvasRef w) as [[width height]|] eqn:Ec.
  2:{ exists []. cbn. rewrite app_nil_r. repeat split; constructor. }
  cbn [ob_lane ob_y ob_type advance].
  destruct (collides width height (playerLane rd) (ob_lane obs) (ob_y obs + speedRef w)) eqn:Eh.
  2:{ exists []. cbn. rewrite app_nil_r. repeat split; constructor. }
  destruct (ob_type obs) eqn:Et.
  - destruct (isFlowState rd) eqn:Ef.
    + exists [AddScore 50; SetIsShaking true].
      abstract_particles. rewrite triggerShake_nf. cbn.
      rewrite <- app_assoc.
      repeat split; try reflexivity.
      repeat (apply Forall_cons; [cbn; auto|]). apply Forall_nil.
    + rewrite endGame_nf.
      destruct (gt_jsint (score rd) (highScore rd)) eqn:Eg;
        eexists; cbn; repeat split; try reflexivity;
        repeat (apply Forall_cons; [cbn; auto|]); apply Forall_nil.
  - exists [BumpAura (isFlowState rd); SetIsShaking true].
    abstract_particles. rewrite triggerShake_nf. cbn.
    rewrite <- app_assoc.
    repeat split; try reflexivity.
    repeat (apply Forall_cons; [cbn; auto|]). apply Forall_nil.
Qed.

Lemma collisions_cons ty (rd : Render) (w : World R) obs l :
  collisions ty rd w (obs :: l)
  = ((if hits rd w obs && isType ty obs then 1 else 0) + collisions ty rd w l)%Z.
Proof.
  unfold collisions. cbn [filter].
  destruct (hits rd w obs && isType ty obs); cbn [List.length]; lia.
Qed.

Lemma collisions_nonneg ty (rd : Render) (w : World R) l : (0 <= collisions ty rd w l)%Z.
Proof. unfold collisions. lia. Qed.

(** The whole filter: the list it returns and the updates it queues. *)
Lemma filterObstacles_spec (rd : Render) l (w : World R) :
  exists q,
    let (kept, w') := filterObstacles rd l w in
    kept = survivors rd w l /\
    stage w' = stage w /\ st w' = st w /\
    flowStateTimerRef w' = flowStateTimerRef w /\
    queue w' = queue w ++ q /\
    Forall (frameAct rd) q /\
    bumps q = collisions AURA rd w l /\
    gains q = (if isFlowState rd then 50 * collisions BLOCK rd w l else 0)%Z /\
    ended q = negb (isFlowState rd) && (0 <? collisions BLOCK rd w l)%Z.
Proof.
  revert w. induction l as [|obs rest IH]; intros w.
  - exists []. cbn. rewrite app_nil_r.
    repeat split; try constructor; destruct (isFlowState rd); reflexivity.
  - cbn [filterObstacles].
    destruct (obstacleCallback_spec rd obs w) as (q1 & H1).
    destruct (obstacleCallback rd obs w) as [[keep obs'] w1].
    destruct H1 as (Hk & Ho & Hs1 & Hst1 & Hf1 & Hq1 & Ha1 & Hb1 & Hg1 & He1).
    destruct (IH w1) as (q2 & H2).
    destruct (filterObstacles rd rest w1) as [kept w2].
    destruct H2 as (Hkept & Hs2 & Hst2 & Hf2 & Hq2 & Ha2 & Hb2 & Hg2 & He2).
    exists (q1 ++ q2).
    rewrite (stage_survivors rd w1 w rest Hs1) in Hkept.
    rewrite (stage_collisions AURA rd w1 w rest Hs1) in Hb2.
    rewrite (stage_collisions BLOCK rd w1 w rest Hs1) in Hg2, He2.
    repeat split.
    + subst keep obs' kept. unfold survivors. cbn [filter].
      destruct (negb (hits rd w obs) && onScreen w obs); reflexivity.
    + congruence.
    + congruence.
    + congruence.
    + rewrite Hq2, Hq1. now rewrite app_assoc.
    + apply Forall_app; auto.
    + rewrite bumps_app, Hb1, Hb2, collisions_cons. reflexivity.
    + rewrite gains_app, Hg1, Hg2, collisions_cons.
      destruct (isFlowState rd), (hits rd w obs && isType BLOCK obs);
        cbn [andb negb]; lia.
    + rewrite ended_app, He1, He2, collisions_cons.
      pose proof (collisions_nonneg BLOCK rd w rest).
      destruct (isFlowState rd), (hits rd w obs && isType BLOCK obs);
        cbn [andb negb orb]; try reflexivity.
      symmetry; apply Z.ltb_lt; lia.
Qed.

(** ** The frame, summarised *)

Lemma spawnPhase_nf (w : World R) :
  spawnPhase w
  = set_obstaclesRef (obstaclesRef (spawnPhase w)) (set_draws (draws (spawnPhase w)) w).
Proof.
  unfold spawnPhase, spawnObstacle, random. cbn.
  destruct (_ <? _); destruct w; reflexivity.
Qed.

Lemma playerTrail_nf (rd : Render) (w : World R) :
  exists trail, (List.length trail <= 1)%nat /\
    playerTrail rd w
    = set_particlesRef (particlesRef w ++ trail) (set_draws (draws (playerTrail rd w)) w).
Proof.
  unfold playerTrail, random.
  destruct (canvasRef w) as [[width height]|].
  2:{ exists []. split; [cbn; lia|]. rewrite app_nil_r. destruct w; reflexivity. }
  cbn. destruct (_ <? _).
  2:{ exists []. split; [cbn; lia|]. rewrite app_nil_r. destruct w; reflexivity. }
  match goal with
  | |- context [createParticles ?x ?y ?c ?n ?o ?w0] =>
      destruct (createParticles_nf x y c n o w0) as (ps & Hlen & ->)
  end.
  exists ps. split; [lia|]. reflexivity.
Qed.

Lemma update_playing (rd : Render) time (w : World R) :
  gameState rd = PLAYING ->
  update rd time w
  = requestAnimationFrame rd
      (enqueue (AddScore 1)
         (playerTrail rd (particlePass (obstaclePass rd (beforePass time w))))).
Proof. unfold update. intros ->. reflexivity. Qed.

Lemma beforePass_fields time (w : World R) :
  let w0 := beforePass time w in
  st w0 = st w /\ queue w0 = queue w /\
  speedRef w0 = speedRef w + SPEED_INCREMENT /\ lastTimeRef w0 = time /\
  flowStateTimerRef w0 = flowStateTimerRef w /\ shakeTimerRef w0 = shakeTimerRef w /\
  requestRef w0 = requestRef w /\ canvasRef w0 = canvasRef w /\
  innerSize w0 = innerSize w /\ clock w0 = clock w /\ timers w0 = timers w /\
  frames w0 = frames w /\ nextHandle w0 = nextHandle w /\ storage w0 = storage w /\
  particlesRef w0 = particlesRef w.
Proof.
  unfold beforePass. cbv zeta. rewrite spawnPhase_nf. cbn. repeat split.
Qed.

(** One frame while the loop runs: every obstacle of the list is moved and
    tested, the particle pass and the trail follow, the survival point is
    queued last and the next frame is requested. *)
Lemma update_spec (rd : Render) time (w : World R) :
  gameState rd = PLAYING ->
  let w0 := beforePass time w in
  let w' := update rd time w in
  exists q trail,
    obstaclesRef w' = survivors rd w0 (obstaclesRef w0) /\
    speedRef w' = speedRef w + SPEED_INCREMENT /\
    lastTimeRef w' = time /\
    canvasRef w' = canvasRef w /\ innerSize w' = innerSize w /\ clock w' = clock w /\
    st w' = st w /\
    flowStateTimerRef w' = flowStateTimerRef w /\
    queue w' = queue w ++ q ++ [AddScore 1] /\
    Forall (frameAct rd) q /\
    bumps q = collisions AURA rd w0 (obstaclesRef w0) /\
    gains q = (if isFlowState rd then 50 * collisions BLOCK rd w0 (obstaclesRef w0) else 0)%Z /\
    ended q = negb (isFlowState rd) && (0 <? collisions BLOCK rd w0 (obstaclesRef w0))%Z /\
    (List.length trail <= 1)%nat /\
    particlesRef w' = filterParticles (particlesRef (obstaclePass rd w0)) ++ trail /\
    frames w' = frames w ++ [(nextHandle (obstaclePass rd w0), rd)] /\
    requestRef w' = Some (nextHandle (obstaclePass rd w0)).
Proof.
  intros Hp. cbv zeta. rewrite (update_playing rd time w Hp).
  destruct (beforePass_fields time w) as
    (Hst & Hq & Hsp & Hlt & Hfl & Hsh & Hrq & Hcv & Hin & Hck & Htm & Hfr & Hnh & Hsto & Hpa).
  remember (beforePass time w) as w0 eqn:Ew0 in *. clear Ew0.
  destruct (filterObstacles_spec rd (obstaclesRef w0) w0) as (q & Hspec).
  remember (obstaclePass rd w0) as wp eqn:Ewp.
  unfold obstaclePass in Ewp.
  destruct (filterObstacles rd (obstaclesRef w0) w0) as [kept w1].
  destruct Hspec as (Hk & Hs1 & Hst1 & Hf1 & Hq1 & Ha & Hb & Hg & He).
  unfold stage in Hs1. injection Hs1 as _ S2 S3 S4 S5 S6 S7 S8.
  destruct (playerTrail_nf rd (particlePass wp)) as (trail & Hlen & ->).
  exists q, trail. subst wp.
  unfold requestAnimationFrame, enqueue, particlePass. wsimpl.
  repeat split; try congruence.
  rewrite Hq1, Hq. now rewrite <- app_assoc.
Qed.

(** ** Rendering, summarised *)

(** Closes the goal by computation for every update but the aura updater. *)
Ltac plain_action :=
  match goal with
  | |- context [BumpAura] => idtac
  | _ => reflexivity
  end.

Lemma applyAction_st a (w : World R) : st (applyAction a w) = reduce (st w) a.
Proof.
  destruct a; plain_action.
  unfold applyAction.
  destruct (_ && _); [destruct (activateFlowState_nf w) as (ps & ->)|]; reflexivity.
Qed.

Lemma applyAction_stage a (w : World R) : stage (applyAction a w) = stage w.
Proof.
  destruct a; plain_action.
  unfold applyAction.
  destruct (_ && _); [destruct (activateFlowState_nf w) as (ps & ->)|]; reflexivity.
Qed.

Lemma applyAction_queue a (w : World R) :
  queue (applyAction a w)
  = queue w ++ (if activates (st w) a then activationUpdates else []).
Proof.
  destruct a;
    match goal with
    | |- context [BumpAura] => idtac
    | _ => cbn; now rewrite app_nil_r
    end.
  unfold applyAction, activates.
  destruct (_ && _); [destruct (activateFlowState_nf w) as (ps & ->)|];
    wsimpl; [reflexivity|now rewrite app_nil_r].
Qed.

Lemma fold_applyAction q (w : World R) :
  let w' := fold_left (fun w a => applyAction a w) q w in
  st w' = fold_left reduce q (st w) /\
  stage w' = stage w /\
  queue w' = queue w ++ nested q (st w).
Proof.
  revert w. induction q as [|a q IH]; intros w; cbn.
  - now rewrite app_nil_r.
  - destruct (IH (applyAction a w)) as (H1 & H2 & H3).
    rewrite H1, H2, H3, applyAction_st, applyAction_stage, applyAction_queue.
    now rewrite <- app_assoc.
Qed.

Lemma processQueue_spec (w : World R) :
  st (processQueue w) = fold_left reduce (queue w) (st w) /\
  stage (processQueue w) = stage w /\
  queue (processQueue w) = nested (queue w) (st w).
Proof.
  unfold processQueue.
  destruct (fold_applyAction (queue w) (set_queue [] w)) as (H1 & H2 & H3).
  cbn in *. auto.
Qed.

Lemma nested_no_bump q s : bumps q = 0%Z -> nested q s = [].
Proof.
  revert s. unfold bumps. induction q as [|a q IH]; intros s Hb; [reflexivity|].
  cbn in *. destruct a; cbn in *; try (apply IH; assumption). lia.
Qed.

Lemma nested_bumps q s : bumps (nested q s) = 0%Z.
Proof.
  revert s. induction q as [|a q IH]; intros s; [reflexivity|].
  cbn. rewrite bumps_app, IH. destruct (activates s a); reflexivity.
Qed.

(** Rendering: the queued updates are applied, then those the updaters
    queued; the queue is empty afterwards. *)
Lemma renderState_spec (w : World R) :
  st (renderState w)
  = fold_left reduce (nested (queue w) (st w)) (fold_left reduce (queue w) (st w)) /\
  stage (renderState w) = stage w /\
  queue (renderState w) = [].
Proof.
  unfold renderState.
  destruct (processQueue_spec w) as (H1 & H2 & H3).
  destruct (processQueue_spec (processQueue w)) as (K1 & K2 & K3).
  rewrite K1, K2, K3, H1, H2, H3. repeat split.
  apply nested_no_bump, nested_bumps.
Qed.

Lemma bumps_cons a q : bumps (a :: q) = ((if isBump a then 1 else 0) + bumps q)%Z.
Proof. unfold bumps. cbn [filter]. destruct (isBump a); cbn [List.length]; lia. Qed.

Lemma bumps_nonneg q : (0 <= bumps q)%Z.
Proof. unfold bumps. lia. Qed.

Lemma gains_cons a q : gains (a :: q) = (gain a + gains q)%Z.
Proof. reflexivity. Qed.

Lemma ended_cons a q : ended (a :: q) = isEnd a || ended q.
Proof. reflexivity. Qed.

(** The state after the updates queued by a frame. *)
Lemma reduce_frame (rd : Render) q :
  Forall (frameAct rd) q ->
  forall s,
    let s' := fold_left reduce q s in
    gameState s' = (if ended q then GAME_OVER else gameState s) /\
    score s' = (score s + gains q)%Z /\
    auraCount s' = (auraCount s + bumps q)%Z /\
    isFlowState s' = isFlowState s /\
    playerLane s' = playerLane s.
Proof.
  induction 1 as [|a q Ha Hq IH]; intros s; cbn [fold_left].
  - cbv zeta. unfold bumps, gains, ended. cbn. repeat split; lia.
  - destruct (IH (reduce s a)) as (H1 & H2 & H3 & H4 & H5).
    cbv zeta. rewrite H1, H2, H3, H4, H5, bumps_cons, gains_cons, ended_cons.
    clear IH H1 H2 H3 H4 H5.
    destruct a; cbn [frameAct] in Ha; try contradiction;
      cbn [reduce isBump gain isEnd orb]; wsimpl.
    + destruct Ha as [-> _]. cbn [orb]. repeat split; try lia.
      now destruct (ended q).
    + repeat split; lia.
    + repeat split; lia.
    + repeat split; lia.
    + repeat split; lia.
    + repeat split; lia.
Qed.

Lemma fold_reduce_activations n s :
  fold_left reduce (List.concat (repeat activationUpdates (S n))) s
  = set_isShaking true (set_auraCount 0 (set_isFlowState true s)).
Proof.
  revert s. induction n as [|n IH]; intros s; [reflexivity|].
  change (repeat activationUpdates (S (S n)))
    with (activationUpdates :: repeat activationUpdates (S n)).
  cbn [List.concat]. rewrite fold_left_app, IH. reflexivity.
Qed.

(** The updaters of a frame call [activateFlowState] exactly when the count
    reaches ten, provided the render that created [update] was not in power
    mode. *)
Lemma nested_frame (rd : Render) q :
  isFlowState rd = false ->
  Forall (frameAct rd) q ->
  forall s,
  exists n,
    nested q s = List.concat (repeat activationUpdates n) /\
    ((auraCount s + bumps q < 10)%Z -> n = O) /\
    ((10 <= auraCount s + bumps q)%Z -> (0 < bumps q)%Z -> n <> O).
Proof.
  intros Hf. induction 1 as [|a q Ha Hq IH]; intros s.
  - exists O. unfold bumps; cbn. repeat split; lia.
  - rewrite bumps_cons. cbn [nested].
    destruct (IH (reduce s a)) as (n & -> & IH1 & IH2).
    pose proof (bumps_nonneg q) as Hb.
    destruct a; cbn [frameAct] in Ha; try contradiction;
      cbn [isBump activates reduce] in *; wsimpl_in IH1; wsimpl_in IH2;
      try (exists n; cbn [app]; repeat split; intros; [apply IH1|apply IH2]; lia).
    rewrite Ha, Hf. cbn [negb]. rewrite andb_true_r.
    destruct (10 <=? auraCount s + 1)%Z eqn:E.
    + apply Z.leb_le in E. exists (S n). repeat split; [lia|discriminate].
    + apply Z.leb_gt in E. exists n. cbn [app].
      repeat split; intros; [apply IH1|apply IH2]; lia.
Qed.

(** ** The effect on [gameState], summarised *)

Lemma gameStateEffect_fields b (w : World R) :
  let w' := gameStateEffect b w in
  st w' = st w /\ queue w' = queue w /\ obstaclesRef w' = obstaclesRef w /\
  speedRef w' = speedRef w /\ lastTimeRef w' = lastTimeRef w /\
  canvasRef w' = canvasRef w /\ innerSize w' = innerSize w /\ clock w' = clock w /\
  timers w' = timers w /\ flowStateTimerRef w' = flowStateTimerRef w /\
  shakeTimerRef w' = shakeTimerRef w /\ storage w' = storage w /\
  particlesRef w' = particlesRef w.
Proof.
  cbv zeta.
  unfold gameStateEffect, cancelRequest, requestAnimationFrame, cancelAnimationFrame.
  destruct (GameState_eqb b (gameState (st w))); [repeat split|].
  destruct (requestRef w) eqn:Er; wsimpl;
    destruct (GameState_eqb (gameState (st w)) PLAYING); wsimpl;
    rewrite ?Er; repeat split.
Qed.

Lemma GameState_eqb_eq a b : GameState_eqb a b = true <-> a = b.
Proof. destruct a, b; cbn; split; congruence. Qed.

Lemma GameState_eqb_refl a : GameState_eqb a a = true.
Proof. now apply GameState_eqb_eq. Qed.

Lemma GameState_eqb_neq a b : GameState_eqb a b = false <-> a <> b.
Proof. destruct a, b; cbn; split; congruence. Qed.

Lemma gameStateEffect_same b (w : World R) :
  b = gameState (st w) -> gameStateEffect b w = w.
Proof. intros ->. unfold gameStateEffect. now rewrite GameState_eqb_refl. Qed.

(** When the run stops, the frame requested last is cancelled. *)
Lemma gameStateEffect_stop b (w : World R) id (rd : Render) :
  b <> gameState (st w) -> gameState (st w) <> PLAYING ->
  frames w = [(id, rd)] -> requestRef w = Some id ->
  frames (gameStateEffect b w) = [] /\ requestRef (gameStateEffect b w) = Some id.
Proof.
  intros Hb Hp Hf Hr.
  unfold gameStateEffect, cancelRequest, cancelAnimationFrame.
  apply GameState_eqb_neq in Hb, Hp. rewrite Hb. cbn. rewrite Hr. cbn.
  rewrite Hp, Hf. cbn. rewrite Hr. cbn. rewrite Pos.eqb_refl. cbn. auto.
Qed.

(** ** One frame of the running loop *)

Lemma frame_step time (w : World R) id (rd : Render) :
  queue w = [] -> frames w = [(id, rd)] ->
  gameState rd = PLAYING -> isFlowState rd = false ->
  gameState (st w) = PLAYING -> (auraCount (st w) < 10)%Z ->
  let w0 := beforePass time (set_frames [] w) in
  let A := collisions AURA rd w0 (obstaclesRef w0) in
  let B := collisions BLOCK rd w0 (obstaclesRef w0) in
  exists w',
    step (Frame time) w = Some w' /\
    gameState (st w') = (if (0 <? B)%Z then GAME_OVER else PLAYING) /\
    score (st w') = (score (st w) + 1)%Z /\
    auraCount (st w')
    = (if (10 <=? auraCount (st w) + A)%Z then 0 else auraCount (st w) + A)%Z /\
    isFlowState (st w')
    = (if (10 <=? auraCount (st w) + A)%Z then true else isFlowState (st w)) /\
    playerLane (st w') = playerLane (st w) /\
    queue w' = [] /\
    speedRef w' = speedRef w + SPEED_INCREMENT /\
    obstaclesRef w' = survivors rd w0 (obstaclesRef w0) /\
    (if (0 <? B)%Z then frames w' = []
     else exists h, frames w' = [(h, rd)] /\ requestRef w' = Some h) /\
    clock w' = clock w /\ canvasRef w' = canvasRef w /\ innerSize w' = innerSize w.
Proof.
  intros Hq Hfr Hp Hf Hst Hlt. cbv zeta.
  unfold step. rewrite Hfr. eexists; split; [reflexivity|].
  destruct (update_spec rd time (set_frames [] w) Hp) as (q & trail & Hu).
  cbv zeta in Hu.
  remember (beforePass time (set_frames [] w)) as w0 eqn:Ew0. clear Ew0.
  remember (collisions AURA rd w0 (obstaclesRef w0)) as A eqn:EA.
  remember (collisions BLOCK rd w0 (obstaclesRef w0)) as B eqn:EB.
  remember (nextHandle (obstaclePass rd w0)) as h eqn:Eh. clear Eh.
  remember (update rd time (set_frames [] w)) as w1 eqn:Ew1. clear Ew1.
  destruct Hu as (U1 & U2 & U3 & U4 & U5 & U6 & U7 & U8 & U9 & U10 & U11 & U12 & U13
                  & U14 & U15 & U16 & U17).
  wsimpl_in U2; wsimpl_in U4; wsimpl_in U5; wsimpl_in U6; wsimpl_in U7;
    wsimpl_in U9; wsimpl_in U16.
  rewrite Hq in U9. cbn [app] in U9.
  rewrite Hf in U12, U13. cbn [negb andb] in U13.
  assert (HFa : Forall (frameAct rd) (q ++ [AddScore 1])).
  { apply Forall_app; split; [assumption|].
    apply Forall_cons; [cbn; auto|apply Forall_nil]. }
  destruct (renderState_spec w1) as (R1 & R2 & R3).
  rewrite U9, U7 in R1.
  destruct (reduce_frame rd _ HFa (st w)) as (F1 & F2 & F3 & F4 & F5).
  destruct (nested_frame rd _ Hf HFa (st w)) as (n & N0 & N1 & N2).
  assert (Hb1 : bumps [AddScore 1] = 0%Z) by reflexivity.
  assert (Hg1 : gains [AddScore 1] = 1%Z) by reflexivity.
  assert (He1 : ended [AddScore 1] = false) by reflexivity.
  rewrite ended_app, U13, He1, orb_false_r, Hst in F1.
  rewrite gains_app, U12, Hg1 in F2.
  rewrite bumps_app, U11, Hb1, Z.add_0_r in F3, N1, N2.
  pose proof (collisions_nonneg AURA rd w0 (obstaclesRef w0)) as HA. rewrite <- EA in HA.
  remember (fold_left reduce (q ++ [AddScore 1]) (st w)) as s1 eqn:Es1. clear Es1.
  assert (HS : gameState (st (renderState w1)) = gameState s1 /\
               score (st (renderState w1)) = score s1 /\
               playerLane (st (renderState w1)) = playerLane s1 /\
               auraCount (st (renderState w1))
               = (if (10 <=? auraCount (st w) + A)%Z then 0 else auraCount (st w) + A)%Z /\
               isFlowState (st (renderState w1))
               = (if (10 <=? auraCount (st w) + A)%Z then true else isFlowState (st w))).
  { rewrite R1, N0. destruct (10 <=? auraCount (st w) + A)%Z eqn:E.
    - apply Z.leb_le in E. destruct n as [|n]; [exfalso; apply N2; [lia|lia|reflexivity]|].
      rewrite fold_reduce_activations. wsimpl. auto.
    - apply Z.leb_gt in E. rewrite (N1 E). cbn [repeat List.concat fold_left]. auto. }
  destruct HS as (S1 & S2 & S3 & S4 & S5).
  unfold stage in R2. injection R2 as G1 G2 G3 G4 G5 G6 G7 G8.
  unfold rerender.
  destruct (gameStateEffect_fields (gameState (st w1)) (renderState w1))
    as (E1 & E2 & E3 & E4 & E5 & E6 & E7 & E8 & _).
  rewrite E1, E2, E3, E4, E6, E7, E8.
  rewrite S1, S2, S3, S4, S5, F1, F2, F5, R3, G1, G2, G5, G6, G7, U1, U2, U4, U5, U6.
  repeat split; try reflexivity; try lia.
  rewrite U7, Hst.
  destruct (0 <? B)%Z eqn:E0.
  - eapply proj1. eapply gameStateEffect_stop with (id := h) (rd := rd).
    + rewrite S1, F1. discriminate.
    + rewrite S1, F1. discriminate.
    + now rewrite G8, U16.
    + now rewrite G4, U17.
  - rewrite gameStateEffect_same by (now rewrite S1, F1).
    exists h. rewrite G8, G4, U16, U17. auto.
Qed.

(** ** The other events, summarised *)

Lemma set_queue_same (w : World R) : set_queue (queue w) w = w.
Proof. destruct w; reflexivity. Qed.

Lemma handleKeyDown_nf (rd : Render) key (w : World R) :
  handleKeyDown rd key w = set_queue (queue w ++ keyActions rd key) w.
Proof.
  unfold handleKeyDown, keyActions, enqueue.
  destruct (negb _); [now rewrite app_nil_r, set_queue_same|].
  destruct (String.eqb key "ArrowLeft"), (String.eqb key "ArrowRight"); wsimpl;
    rewrite <- ?app_assoc, ?app_nil_r, ?set_queue_same; reflexivity.
Qed.

Lemma handleTouchStart_nf (rd : Render) touchX (w : World R) :
  handleTouchStart rd touchX w = set_queue (queue w ++ touchActions rd touchX w) w.
Proof.
  unfold handleTouchStart, touchActions, enqueue.
  destruct (negb _); [now rewrite app_nil_r, set_queue_same|].
  destruct (_ <? _); reflexivity.
Qed.

Lemma startGame_nf (w : World R) :
  startGame w
  = set_lastTimeRef (num_of_Z (clock w))
      (set_particlesRef []
         (set_obstaclesRef []
            (set_speedRef (num_of_Z INITIAL_SPEED)
               (set_queue (queue w ++ startActions) w)))).
Proof.
  unfold startGame, enqueue, startActions. wsimpl.
  rewrite <- !app_assoc. reflexivity.
Qed.

Lemma set_st_same (w : World R) : set_st (st w) w = w.
Proof. destruct w; reflexivity. Qed.

Lemma fold_plain q (w : World R) :
  bumps q = 0%Z ->
  fold_left (fun w a => applyAction a w) q w = set_st (fold_left reduce q (st w)) w.
Proof.
  revert w. induction q as [|a q IH]; intros w Hb; cbn [fold_left].
  - now rewrite set_st_same.
  - rewrite bumps_cons in Hb. pose proof (bumps_nonneg q).
    destruct a; cbn [isBump] in Hb; try lia;
      (rewrite IH by lia; reflexivity).
Qed.

(** Rendering when no aura updater is queued: the state is recomputed,
    nothing else changes. *)
Lemma renderState_plain_eq (w : World R) :
  bumps (queue w) = 0%Z ->
  renderState w = set_st (fold_left reduce (queue w) (st w)) (set_queue [] w).
Proof.
  intros Hb. unfold renderState, processQueue at 2.
  rewrite fold_plain by exact Hb. unfold processQueue. reflexivity.
Qed.

Lemma rerender_plain (w : World R) :
  bumps (queue w) = 0%Z ->
  gameState (fold_left reduce (queue w) (st w)) = gameState (st w) ->
  rerender w = set_st (fold_left reduce (queue w) (st w)) (set_queue [] w).
Proof.
  intros Hb Hg. unfold rerender. rewrite renderState_plain_eq by exact Hb.
  apply gameStateEffect_same. symmetry. exact Hg.
Qed.

Lemma set_queue_nil (w : World R) : queue w = [] -> set_queue [] w = w.
Proof. intros E. rewrite <- E. apply set_queue_same. Qed.

Lemma set_queue_twice q q' (w : World R) :
  set_queue q' (set_queue q w) = set_queue q' w.
Proof. reflexivity. Qed.

Lemma step_key key (w w' : World R) :
  queue w = [] -> step (KeyDown key) w = Some w' ->
  w' = set_st (fold_left reduce (keyActions (st w) key) (st w)) w.
Proof.
  intros Hq Hs. cbn [step] in Hs. injection Hs as <-.
  rewrite handleKeyDown_nf, Hq. cbn [app].
  rewrite rerender_plain; wsimpl.
  - rewrite set_queue_twice, set_queue_nil by exact Hq. reflexivity.
  - unfold keyActions. destruct (negb _); [reflexivity|].
    destruct (String.eqb key "ArrowLeft"), (String.eqb key "ArrowRight"); reflexivity.
  - unfold keyActions. destruct (negb _); [reflexivity|].
    destruct (String.eqb key "ArrowLeft"), (String.eqb key "ArrowRight"); reflexivity.
Qed.

Lemma step_touch touchX (w w' : World R) :
  queue w = [] -> step (TouchStart touchX) w = Some w' ->
  w' = set_st (fold_left reduce (touchActions (st w) touchX w) (st w)) w.
Proof.
  intros Hq Hs. cbn [step] in Hs. injection Hs as <-.
  rewrite handleTouchStart_nf, Hq. cbn [app].
  rewrite rerender_plain; wsimpl.
  - rewrite set_queue_twice, set_queue_nil by exact Hq. reflexivity.
  - unfold touchActions. destruct (negb _); [reflexivity|].
    destruct (_ <? _); reflexivity.
  - unfold touchActions. destruct (negb _); [reflexivity|].
    destruct (_ <? _); reflexivity.
Qed.

Lemma step_timer id (w w' : World R) :
  queue w = [] -> step (TimerFires id) w = Some w' ->
  exists t, findTimer id w = Some t /\ (t_due t <= clock w)%Z /\
    w' = set_st (match t_cb t with
                 | ExpireFlow => set_isFlowState false (st w)
                 | ClearShake => set_isShaking false (st w)
                 end)
           (clearTimeout id w).
Proof.
  intros Hq Hs. cbn [step] in Hs.
  destruct (findTimer id w) as [t|]; [|discriminate].
  destruct (t_due t <=? clock w)%Z eqn:Ed; [|discriminate].
  injection Hs as <-. exists t. split; [reflexivity|]. split; [now apply Z.leb_le|].
  unfold runTimer, enqueue, clearTimeout. wsimpl. rewrite Hq. cbn [app].
  destruct (t_cb t); (rewrite rerender_plain; wsimpl; [|reflexivity|reflexivity]);
    rewrite set_queue_twice, set_queue_nil by exact Hq; reflexivity.
Qed.

(** The state right after [startGame]. *)
Lemma start_state s :
  fold_left reduce startActions s
  = {| gameState := PLAYING; score := 0; highScore := highScore s; auraCount := 0;
       isFlowState := false; playerLane := 1; gameOverText := gameOverText s;
       isShaking := isShaking s |}.
Proof. reflexivity. Qed.

Lemma step_start (w w' : World R) :
  queue w = [] -> frames w = [] -> step ClickStart w = Some w' ->
  gameState (st w) <> PLAYING /\
  w' = requestAnimationFrame (fold_left reduce startActions (st w))
         (set_st (fold_left reduce startActions (st w))
            (set_lastTimeRef (num_of_Z (clock w))
               (set_particlesRef []
                  (set_obstaclesRef []
                     (set_speedRef (num_of_Z INITIAL_SPEED) w))))).
Proof.
  intros Hq Hf Hs.
  destruct w as [s q obs ps sp lt fr sr rr cv inn ck ts fs nh sto dr].
  cbn [queue frames] in Hq, Hf. subst q fs.
  destruct s as [g sc hs ac fl pl tx sh].
  cbn [step st gameState] in Hs.
  destruct g; try discriminate; injection Hs as <-;
    (split; [discriminate|]); destruct rr; reflexivity.
Qed.

Lemma step_menu (w w' : World R) :
  queue w = [] -> frames w = [] -> step ClickMenu w = Some w' ->
  gameState (st w) = GAME_OVER /\ w' = set_st (set_gameState MENU (st w)) w.
Proof.
  intros Hq Hf Hs.
  destruct w as [s q obs ps sp lt fr sr rr cv inn ck ts fs nh sto dr].
  cbn [queue frames] in Hq, Hf. subst q fs.
  destruct s as [g sc hs ac fl pl tx sh].
  cbn [step st gameState] in Hs.
  destruct g; try discriminate; injection Hs as <-;
    (split; [reflexivity|]); destruct rr; reflexivity.
Qed.

(** ** The invariant *)

Lemma lane_actions q s :
  Forall (fun a => a = LaneLeft \/ a = LaneRight) q ->
  let s' := fold_left reduce q s in
  gameState s' = gameState s /\ score s' = score s /\ highScore s' = highScore s /\
  auraCount s' = auraCount s /\ isFlowState s' = isFlowState s /\
  ((0 <= playerLane s <= 2)%Z -> (0 <= playerLane s' <= 2)%Z).
Proof.
  intros Hq. revert s. induction Hq as [|a q Ha Hq IH]; intros s; cbn [fold_left].
  - cbv zeta. repeat split; auto; lia.
  - destruct (IH (reduce s a)) as (H1 & H2 & H3 & H4 & H5 & H6).
    cbv zeta. rewrite H1, H2, H3, H4, H5.
    destruct Ha as [-> | ->]; cbn [reduce]; wsimpl; repeat split; auto;
      intros; apply H6; cbn [reduce]; wsimpl; unfold LANES; lia.
Qed.

Lemma keyActions_lane (rd : Render) key :
  Forall (fun a => a = LaneLeft \/ a = LaneRight) (keyActions rd key).
Proof.
  unfold keyActions. destruct (negb _); [constructor|].
  destruct (String.eqb key "ArrowLeft"), (String.eqb key "ArrowRight");
    cbn [app]; repeat (apply Forall_cons; [auto|]); apply Forall_nil.
Qed.

Lemma touchActions_lane (rd : Render) touchX (w : World R) :
  Forall (fun a => a = LaneLeft \/ a = LaneRight) (touchActions rd touchX w).
Proof.
  unfold touchActions. destruct (negb _); [constructor|].
  destruct (_ <? _); repeat (apply Forall_cons; [auto|]); apply Forall_nil.
Qed.

Lemma loopOk_idle (w : World R) :
  loopOk w -> gameState (st w) <> PLAYING -> frames w = [].
Proof.
  unfold loopOk. destruct (frames w) as [|[id rd] [|f fs]]; intros Hl Hg;
    [reflexivity| |contradiction].
  destruct Hl as (_ & _ & Hp). contradiction.
Qed.

Lemma step_Inv e (w w' : World R) : Inv w -> step e w = Some w' -> Inv w'.
Proof.
  intros ((Hq & Ha & Hl & Hs & Hg) & Hloop) Hstep.
  destruct e as [time|key|touchX| | |id|dt|width height].
  - (* a frame *)
    unfold loopOk in Hloop.
    destruct (frames w) as [|[id rd] [|f fs]] eqn:Hfr;
      [cbn [step] in Hstep; rewrite Hfr in Hstep; discriminate| |contradiction].
    destruct Hloop as (Hr & Hc & Hp).
    pose proof Hc as (C1 & C2 & C3 & C4 & C5).
    destruct (frame_step time w id rd Hq Hfr C1 C4 Hp (proj2 Ha))
      as (w1 & Hs1 & F1 & F2 & F3 & F4 & F5 & F6 & F7 & F8 & F9 & _).
    rewrite Hs1 in Hstep. injection Hstep as <-.
    remember (beforePass time (set_frames [] w)) as w0 eqn:Ew0. clear Ew0.
    pose proof (collisions_nonneg AURA rd w0 (obstaclesRef w0)) as HA.
    split.
    + unfold stateOk. rewrite F6, F3, F5, F2, F1. repeat split; try lia.
      * destruct (10 <=? _)%Z eqn:E; [lia|]. apply Z.leb_gt in E. lia.
      * destruct (10 <=? _)%Z eqn:E; [lia|]. apply Z.leb_gt in E. lia.
      * destruct (0 <? _)%Z; discriminate.
    + unfold loopOk. destruct (0 <? _)%Z.
      * rewrite F9, F1. discriminate.
      * destruct F9 as (h & -> & ->). rewrite F1. auto.
  - (* a key *)
    rewrite (step_key key w w' Hq Hstep).
    destruct (lane_actions _ (st w) (keyActions_lane (st w) key))
      as (L1 & L2 & L3 & L4 & L5 & L6).
    split; [unfold stateOk|unfold loopOk]; wsimpl; rewrite ?L1, ?L2, ?L4; auto.
  - (* a touch *)
    rewrite (step_touch touchX w w' Hq Hstep).
    destruct (lane_actions _ (st w) (touchActions_lane (st w) touchX w))
      as (L1 & L2 & L3 & L4 & L5 & L6).
    split; [unfold stateOk|unfold loopOk]; wsimpl; rewrite ?L1, ?L2, ?L4; auto.
  - (* start *)
    assert (Hidle : gameState (st w) <> PLAYING).
    { cbn [step] in Hstep. destruct (gameState (st w)); discriminate. }
    pose proof (loopOk_idle w Hloop Hidle) as Hfr.
    destruct (step_start w w' Hq Hfr Hstep) as (_ & ->).
    rewrite start_state. unfold requestAnimationFrame. wsimpl. rewrite Hfr.
    split; [unfold stateOk|unfold loopOk; unfold closureOk]; wsimpl; cbn [app];
      repeat split; auto; try lia; discriminate.
  - (* back to the menu *)
    assert (Hidle : gameState (st w) <> PLAYING).
    { cbn [step] in Hstep. destruct (gameState (st w)); discriminate. }
    pose proof (loopOk_idle w Hloop Hidle) as Hfr.
    destruct (step_menu w w' Hq Hfr Hstep) as (_ & ->).
    split; [unfold stateOk|unfold loopOk]; wsimpl; rewrite ?Hfr;
      repeat split; auto; try lia; discriminate.
  - (* a timeout *)
    destruct (step_timer id w w' Hq Hstep) as (t & _ & _ & ->).
    unfold clearTimeout.
    split; [unfold stateOk|unfold loopOk]; wsimpl;
      destruct (t_cb t); wsimpl; repeat split; auto; lia.
  - (* time passes *)
    cbn [step] in Hstep. destruct (_ && _); [|discriminate].
    injection Hstep as <-.
    split; [unfold stateOk|unfold loopOk]; wsimpl; repeat split; auto; lia.
  - (* the window is resized *)
    cbn [step] in Hstep. injection Hstep as <-. unfold handleResize. wsimpl.
    destruct (canvasRef w);
      (split; [unfold stateOk|unfold loopOk]; wsimpl; repeat split; auto; lia).
Qed.

Lemma mount_Inv inner saved now : Inv (mount inner saved now).
Proof.
  split; [unfold stateOk|unfold loopOk]; cbn; repeat split; try lia; discriminate.
Qed.

Lemma reachable_Inv (w : World R) : reachable w -> Inv w.
Proof.
  induction 1 as [inner saved now|w e w' _ IH Hs];
    [apply mount_Inv|exact (step_Inv e w w' IH Hs)].
Qed.

(** ** Timeouts *)
















(** ** Timer handles *)














(** ** The expiry timer across a frame *)








(** ** The stored high score across a frame *)

Lemma storage_obstacleCallback (rd : Render) obs (w : World R) :
  gt_jsint (score rd) (highScore rd) = false ->
  storage (snd (obstacleCallback rd obs w)) = storage w.
Proof.
  intros Hgt. unfold obstacleCallback.
  destruct (canvasRef w) as [[width height]|]; [|reflexivity].
  destruct (collides _ _ _ _ _); [|reflexivity].
  destruct (ob_type _).
  - destruct (isFlowState rd); cbn [snd].
    + abstract_particles. rewrite triggerShake_nf. reflexivity.
    + rewrite endGame_nf, Hgt. reflexivity.
  - cbn [snd]. abstract_particles. rewrite triggerShake_nf. reflexivity.
Qed.

Lemma storage_filterObstacles (rd : Render) l (w : World R) :
  gt_jsint (score rd) (highScore rd) = false ->
  storage (snd (filterObstacles rd l w)) = storage w.
Proof.
  intros Hgt. revert w. induction l as [|obs rest IH]; intros w; [reflexivity|].
  cbn [filterObstacles].
  pose proof (storage_obstacleCallback rd obs w Hgt) as H1.
  destruct (obstacleCallback rd obs w) as [[keep obs'] w1]. cbn [snd] in H1.
  pose proof (IH w1) as H2.
  destruct (filterObstacles rd rest w1) as [kept w2]. cbn [snd] in *. congruence.
Qed.

Lemma storage_update (rd : Render) time (w : World R) :
  gt_jsint (score rd) (highScore rd) = false ->
  storage (update rd time w) = storage w.
Proof.
  intros Hgt. unfold update. destruct (negb _); [reflexivity|].
  unfold requestAnimationFrame, enqueue, particlePass.
  match goal with
  | |- context [playerTrail rd ?x] =>
      destruct (playerTrail_nf rd x) as (trail & _ & ->)
  end.
  unfold obstaclePass.
  match goal with
  | |- context [filterObstacles rd ?l ?x] =>
      pose proof (storage_filterObstacles rd l x Hgt) as H2;
      destruct (filterObstacles rd l x) as [kept w2]
  end.
  cbn [snd] in H2. wsimpl. rewrite H2, spawnPhase_nf. reflexivity.
Qed.

Lemma storage_applyAction a (w : World R) : storage (applyAction a w) = storage w.
Proof.
  destruct a; plain_action.
  unfold applyAction.
  destruct (_ && _); [destruct (activateFlowState_nf w) as (ps & ->)|]; reflexivity.
Qed.

Lemma storage_rerender (w : World R) : storage (rerender w) = storage w.
Proof.
  unfold rerender.
  destruct (gameStateEffect_fields (gameState (st w)) (renderState w))
    as (_ & _ & _ & _ & _ & _ & _ & _ & _ & _ & _ & E12 & _).
  rewrite E12. unfold renderState, processQueue.
  assert (Hfold : forall q (w0 : World R),
             storage (fold_left (fun w a => applyAction a w) q w0) = storage w0).
  { induction q as [|a q IH]; intros w0; [reflexivity|].
    cbn [fold_left]. now rewrite IH, storage_applyAction. }
  rewrite Hfold. wsimpl. rewrite Hfold. reflexivity.
Qed.

End Frames.

(** ** Reading back the stored high score *)










(** * The claims *)

Section Claims.

Context {R : Type} {num : JSNumber R} {host : Host R}.

Local Open Scope js_scope.

Lemma run_reachable es (w w' : World R) :
  reachable w -> run es w = Some w' -> reachable w'.
Proof.
  revert w. induction es as [|e es IH]; intros w Hr Hrun; cbn [run] in Hrun.
  - injection Hrun as <-. exact Hr.
  - destruct (step e w) as [w1|] eqn:Hs; [|discriminate].
    exact (IH w1 (reach_step e Hr Hs) Hrun).
Qed.

(** C2.  In every reachable state the player lane is 0, 1 or 2, and it
    stays so after any further sequence of events.  A key or touch event
    that arrives while the state is [PLAYING] moves the lane [l] to
    [max 0 (l - 1)] (ArrowLeft, or a touch in the left half of the window)
    or to [min 2 (l + 1)] (ArrowRight, or a touch in the right half); any
    other key, and any key or touch that arrives while the state is not
    [PLAYING], leaves the lane unchanged. *)
Theorem lane_shift_clamped (w : World R) :
  reachable w ->
  let l := playerLane (st w) in
  (0 <= l <= 2)%Z /\
  (forall es w', run es w = Some w' -> (0 <= playerLane (st w') <= 2)%Z) /\
  (forall key w', step (KeyDown key) w = Some w' ->
     playerLane (st w')
     = if GameState_eqb (gameState (st w)) PLAYING
       then if String.eqb key "ArrowLeft" then Z.max 0 (l - 1)
            else if String.eqb key "ArrowRight" then Z.min 2 (l + 1)
            else l
       else l) /\
  (forall touchX w', step (TouchStart touchX) w = Some w' ->
     playerLane (st w')
     = if GameState_eqb (gameState (st w)) PLAYING
       then if touchX <? fst (innerSize w) / num_of_Z 2
            then Z.max 0 (l - 1) else Z.min 2 (l + 1)
       else l).
Proof.
  intros Hr. cbv zeta.
  destruct (reachable_Inv w Hr) as ((Hq & _ & Hl & _) & _).
  split; [exact Hl|]. split; [|split].
  - intros es w' Hrun.
    destruct (reachable_Inv w' (run_reachable es w w' Hr Hrun)) as ((_ & _ & Hl' & _) & _).
    exact Hl'.
  - intros key w' Hs. rewrite (step_key key w w' Hq Hs). wsimpl.
    unfold keyActions. destruct (GameState_eqb (gameState (st w)) PLAYING);
      cbn [negb]; [|reflexivity].
    destruct (String.eqb key "ArrowLeft") eqn:El.
    + apply String.eqb_eq in El. subst key. reflexivity.
    + destruct (String.eqb key "ArrowRight"); reflexivity.
  - intros touchX w' Hs. rewrite (step_touch touchX w w' Hq Hs). wsimpl.
    unfold touchActions. destruct (GameState_eqb (gameState (st w)) PLAYING);
      cbn [negb]; [|reflexivity].
    destruct (_ <? _); reflexivity.
Qed.



(** A frame of a reachable world, in terms of the collisions it detects. *)
Lemma reachable_frame time (w w' : World R) :
  reachable w -> step (Frame time) w = Some w' ->
  gameState (st w) = PLAYING /\
  gameState (st w')
  = (if (0 <? frameHits BLOCK time w)%Z then GAME_OVER else PLAYING) /\
  score (st w') = (score (st w) + 1)%Z /\
  auraCount (st w')
  = (if (10 <=? auraCount (st w) + frameHits AURA time w)%Z
     then 0 else auraCount (st w) + frameHits AURA time w)%Z /\
  isFlowState (st w')
  = (if (10 <=? auraCount (st w) + frameHits AURA time w)%Z
     then true else isFlowState (st w)) /\
  ((0 < frameHits BLOCK time w)%Z -> frames w' = []).
Proof.
  intros Hr Hstep.
  destruct (reachable_Inv w Hr) as ((Hq & Ha & Hl & Hs & Hg) & Hloop).
  unfold loopOk in Hloop. unfold frameHits.
  destruct (frames w) as [|[id rd] [|f fs]] eqn:Hfr;
    [cbn [step] in Hstep; rewrite Hfr in Hstep; discriminate| |contradiction].
  destruct Hloop as (Hrq & (C1 & C2 & C3 & C4 & C5) & Hp).
  destruct (frame_step time w id rd Hq Hfr C1 C4 Hp (proj2 Ha))
    as (w1 & Hs1 & F1 & F2 & F3 & F4 & F5 & F6 & F7 & F8 & F9 & _).
  rewrite Hs1 in Hstep. injection Hstep as <-.
  cbv zeta. repeat split; try assumption.
  intros Hb. apply Z.ltb_lt in Hb. rewrite Hb in F9. exact F9.
Qed.











(** The [update] that runs the frames of a run is the one created by the
    render that followed [startGame]: it sees a score of 0, no power mode
    and the middle lane, whatever the state has become since. *)
Lemma pending_frame_closure (w : World R) :
  reachable w -> frames w <> [] -> closureOk (pendingClosure w).
Proof.
  intros Hr Hne. destruct (reachable_Inv w Hr) as (_ & Hloop).
  unfold loopOk in Hloop. unfold pendingClosure.
  destruct (frames w) as [|[id rd] [|f fs]]; [contradiction| |contradiction].
  exact (proj1 (proj2 Hloop)).
Qed.

(** Power mode does not protect: a frame that detects the collision of a
    Block ends the run and adds no bonus, also while power mode is
    active. *)
Lemma power_mode_does_not_protect time (w w' : World R) :
  reachable w -> isFlowState (st w) = true ->
  (0 < frameHits BLOCK time w)%Z -> step (Frame time) w = Some w' ->
  gameState (st w') = GAME_OVER /\ score (st w') = (score (st w) + 1)%Z.
Proof.
  intros Hr _ Hb Hstep.
  destruct (reachable_frame time w w' Hr Hstep) as (_ & F1 & F2 & _).
  apply Z.ltb_lt in Hb. rewrite Hb in F1. auto.
Qed.

(** The high score is not saved: unless the stored high score is negative,
    no frame writes to local storage, whatever the score has become. *)
Lemma frame_never_saves time (w w' : World R) :
  reachable w -> step (Frame time) w = Some w' ->
  gt_jsint 0 (highScore (pendingClosure w)) = false ->
  storage w' = storage w.
Proof.
  intros Hr Hstep Hgt.
  destruct (reachable_Inv w Hr) as (_ & Hloop).
  unfold loopOk in Hloop. unfold pendingClosure in Hgt.
  destruct (frames w) as [|[id rd] [|f fs]] eqn:Hfr;
    [cbn [step] in Hstep; rewrite Hfr in Hstep; discriminate| |contradiction].
  destruct Hloop as (_ & (C1 & C2 & _) & _).
  cbn [step] in Hstep. rewrite Hfr in Hstep. injection Hstep as <-.
  rewrite storage_rerender, storage_update; [reflexivity|].
  rewrite C2. exact Hgt.
Qed.

End Claims.

(** ** The fall speed in exact and in binary64 arithmetic *)

Section Exact.

Context {host : Host Q}.

Local Open Scope Q_scope.



End Exact.

(** ** The claims on the scenarios *)

Lemma lane_shift_clamped_witness :
  let l := playerLane (st startedGame) in
  (0 <= l <= 2)%Z /\
  (forall es w', run (host := quietHost) es startedGame = Some w' ->
                 (0 <= playerLane (st w') <= 2)%Z) /\
  (forall key w', step (host := quietHost) (KeyDown key) startedGame = Some w' ->
     playerLane (st w')
     = if GameState_eqb (gameState (st startedGame)) PLAYING
       then if String.eqb key "ArrowLeft" then Z.max 0 (l - 1)
            else if String.eqb key "ArrowRight" then Z.min 2 (l + 1)
            else l
       else l) /\
  (forall touchX w', step (host := quietHost) (TouchStart touchX) startedGame = Some w' ->
     playerLane (st w')
     = if GameState_eqb (gameState (st startedGame)) PLAYING
       then if (touchX <? fst (innerSize startedGame) / num_of_Z 2)%js
            then Z.max 0 (l - 1) else Z.min 2 (l + 1)
       else l).
Proof.
  apply (lane_shift_clamped (host := quietHost) startedGame).
  apply (reach_step (host := quietHost) (w := freshGame) ClickStart).
  - apply reach_mount.
  - vm_compute. reflexivity.
Defined.



Lemma reachable_after (host : Host Q) es inner saved now (w : World Q) :
  run (host := host) es (mount inner saved now) = Some w ->
  reachable (host := host) w.
Proof.
  intros Hrun.
  exact (run_reachable es (mount inner saved now) w (reach_mount inner saved now) Hrun).
Qed.







(** C4 fails on the code.  After ten Auras power mode is active and its
    countdown has the full ten seconds left; the frame loop still runs the
    [update] of the first render, for which power mode is off.  The next
    frame detects one colliding Block: the obstacle is removed, but the run
    ends and the score only gets the survival point, not the bonus of
    50. *)
Theorem power_mode_block_ends_run :
  gameState (st poweredGame) = PLAYING /\
  isFlowState (st poweredGame) = true /\
  clock poweredGame = 0%Z /\
  flowTimers poweredGame
  = [{| t_id := 23; t_due := 10000; t_cb := ExpireFlow |}] /\
  isFlowState (pendingClosure poweredGame) = false /\
  frameHits (host := powerHost) BLOCK (inject_Z 183) poweredGame = 1%Z /\
  exists w',
    step (host := powerHost) (frameAt 183) poweredGame = Some w' /\
    obstaclesRef w' = [] /\
    gameState (st w') = GAME_OVER /\
    score (st w') = (score (st poweredGame) + 1)%Z.
Proof.
  repeat (split; [vm_compute; reflexivity|]).
  eexists. split; [vm_compute; reflexivity|].
  repeat split; vm_compute; reflexivity.
Qed.

(** C5 fails on the code.  With nothing stored the high score is 0; a run
    of three frames ends with a score of 3, yet [endGame] compares the
    score 0 of the first render with the high score: nothing is written to
    local storage and the high score stays 0. *)
Theorem high_score_not_saved :
  storage freshGame = None /\ highScore (st freshGame) = Int 0 /\
  exists w,
    run (host := crashHost) crashTrace freshGame = Some w /\
    gameState (st w) = GAME_OVER /\
    score (st w) = 3%Z /\
    highScore (st w) = Int 0 /\
    storage w = None.
Proof.
  repeat (split; [vm_compute; reflexivity|]).
  eexists. split; [vm_compute; reflexivity|].
  repeat split; vm_compute; reflexivity.
Qed.




(** * Further properties *)

(** Replaces every call of [createParticles] in the goal by its effect. *)
Ltac hide_particles :=
  repeat match goal with
         | |- context [createParticles ?x ?y ?c ?n ?o ?w] =>
             let ps := fresh "ps" in
             destruct (createParticles_nf x y c n o w) as (ps & _ & ->)
         end.


(** ** The frame loop, the score, the obstacles *)

Section Loop.

Context {R : Type} {num : JSNumber R} {host : Host R}.

Local Open Scope js_scope.

(** The frame loop follows the state: a frame is pending exactly while the
    game is being played, there is never more than one, [requestRef] holds
    its handle, and the state [SHOP] is never entered. *)
Theorem frame_loop_follows_state (w : World R) :
  reachable w ->
  (gameState (st w) = PLAYING <-> frames w <> []) /\
  (List.length (frames w) <= 1)%nat /\
  (forall id rd, In (id, rd) (frames w) -> requestRef w = Some id) /\
  gameState (st w) <> SHOP.
Proof.
  intros Hr. destruct (reachable_Inv w Hr) as ((_ & _ & _ & _ & Hshop) & Hloop).
  unfold loopOk in Hloop.
  destruct (frames w) as [|[id rd] [|f fs]]; [| |contradiction].
  - repeat split; auto; try contradiction.
  - destruct Hloop as (Hreq & _ & Hp). cbn [List.length].
    repeat split; auto; try discriminate.
    intros id' rd' [E|[]]. injection E as <- <-. exact Hreq.
Qed.

(** The score across one event. *)
Lemma step_score e (w w' : World R) :
  reachable w -> step e w = Some w' ->
  score (st w')
  = match e with
    | Frame _ => (score (st w) + 1)%Z
    | ClickStart => 0%Z
    | _ => score (st w)
    end.
Proof.
  intros Hr Hstep. pose proof (reachable_Inv w Hr) as ((Hq & Ha & Hl & Hs & Hg) & Hloop).
  destruct e as [time|key|touchX| | |id|dt|width height].
  - destruct (reachable_frame time w w' Hr Hstep) as (_ & _ & F & _). exact F.
  - rewrite (step_key key w w' Hq Hstep).
    destruct (lane_actions _ (st w) (keyActions_lane (st w) key))
      as (L1 & L2 & L3 & L4 & L5 & L6).
    wsimpl. auto.
  - rewrite (step_touch touchX w w' Hq Hstep).
    destruct (lane_actions _ (st w) (touchActions_lane (st w) touchX w))
      as (L1 & L2 & L3 & L4 & L5 & L6).
    wsimpl. auto.
  - assert (Hidle : gameState (st w) <> PLAYING).
    { cbn [step] in Hstep. destruct (gameState (st w)); discriminate. }
    destruct (step_start w w' Hq (loopOk_idle w Hloop Hidle) Hstep) as (_ & ->).
    rewrite start_state. reflexivity.
  - assert (Hidle : gameState (st w) <> PLAYING).
    { cbn [step] in Hstep. destruct (gameState (st w)); discriminate. }
    destruct (step_menu w w' Hq (loopOk_idle w Hloop Hidle) Hstep) as (_ & ->).
    reflexivity.
  - destruct (step_timer id w w' Hq Hstep) as (t & _ & _ & ->).
    destruct (t_cb t); reflexivity.
  - cbn [step] in Hstep. destruct (_ && _); [|discriminate].
    injection Hstep as <-. reflexivity.
  - cbn [step] in Hstep. injection Hstep as <-. unfold handleResize.
    destruct (canvasRef _); reflexivity.
Qed.

Lemma run_score es (w w' : World R) :
  reachable w -> existsb isStart es = false -> run es w = Some w' ->
  score (st w') = (score (st w) + Z.of_nat (frameCount es))%Z.
Proof.
  revert w. induction es as [|e es IH]; intros w Hr Hn Hrun; cbn [run] in Hrun.
  - injection Hrun as <-. cbn. lia.
  - destruct (step e w) as [w1|] eqn:Hs; [|discriminate].
    cbn [existsb] in Hn. apply orb_false_iff in Hn. destruct Hn as (He & Hn).
    rewrite (IH w1 (reach_step e Hr Hs) Hn Hrun), (step_score e w w1 Hr Hs).
    unfold frameCount. cbn [filter].
    destruct e; cbn [isFrame isStart List.length] in *; try discriminate; lia.
Qed.

(** The score of a run is the number of its frames: the start command
    sets it to 0, every frame adds the survival point and nothing else ever
    adds to it. *)
Theorem score_counts_frames (w w1 : World R) :
  reachable w -> step ClickStart w = Some w1 ->
  score (st w1) = 0%Z /\
  forall es w',
    existsb isStart es = false -> run es w1 = Some w' ->
    score (st w') = Z.of_nat (frameCount es).
Proof.
  intros Hr Hs. pose proof (step_score ClickStart w w1 Hr Hs) as H0.
  split; [exact H0|]. intros es w' Hn Hrun.
  rewrite (run_score es w1 w' (reach_step ClickStart Hr Hs) Hn Hrun), H0. lia.
Qed.

(** What the start command resets and what it leaves: the state of the run,
    the obstacles, the particles and the speed are reset and one frame is
    requested, whose [update] sees the state just reset; the high score, the
    message, the shake flag, the pending timeouts and the storage are left
    as they are. *)
Theorem start_resets_run (w w' : World R) :
  reachable w -> step ClickStart w = Some w' ->
  gameState (st w) <> PLAYING /\
  st w' = {| gameState := PLAYING; score := 0; highScore := highScore (st w);
             auraCount := 0; isFlowState := false; playerLane := 1;
             gameOverText := gameOverText (st w); isShaking := isShaking (st w) |} /\
  obstaclesRef w' = [] /\ particlesRef w' = [] /\
  speedRef w' = num_of_Z INITIAL_SPEED /\
  frames w' = [(nextHandle w, st w')] /\
  timers w' = timers w /\ storage w' = storage w /\ clock w' = clock w.
Proof.
  intros Hr Hstep. pose proof (reachable_Inv w Hr) as ((Hq & _) & Hloop).
  assert (Hidle : gameState (st w) <> PLAYING).
  { cbn [step] in Hstep. destruct (gameState (st w)); discriminate. }
  pose proof (loopOk_idle w Hloop Hidle) as Hfr.
  destruct (step_start w w' Hq Hfr Hstep) as (_ & ->).
  rewrite start_state. unfold requestAnimationFrame. wsimpl. rewrite Hfr.
  repeat split; auto.
Qed.

(** The canvas has the size of the window. *)
Lemma reachable_canvas (w : World R) :
  reachable w -> canvasRef w = Some (innerSize w).
Proof.
  induction 1 as [inner saved now|w e w' Hr IH Hstep]; [reflexivity|].
  pose proof (reachable_Inv w Hr) as ((Hq & Ha & Hl & Hs & Hg) & Hloop).
  destruct e as [time|key|touchX| | |id|dt|width height].
  - unfold loopOk in Hloop.
    destruct (frames w) as [|[id rd] [|f fs]] eqn:Hfr;
      [cbn [step] in Hstep; rewrite Hfr in Hstep; discriminate| |contradiction].
    destruct Hloop as (_ & (C1 & C2 & C3 & C4 & C5) & Hp).
    destruct (frame_step time w id rd Hq Hfr C1 C4 Hp (proj2 Ha))
      as (w1 & Hs1 & _ & _ & _ & _ & _ & _ & _ & _ & _ & _ & F11 & F12).
    rewrite Hs1 in Hstep. injection Hstep as <-. congruence.
  - rewrite (step_key key w w' Hq Hstep). exact IH.
  - rewrite (step_touch touchX w w' Hq Hstep). exact IH.
  - assert (Hidle : gameState (st w) <> PLAYING).
    { cbn [step] in Hstep. destruct (gameState (st w)); discriminate. }
    destruct (step_start w w' Hq (loopOk_idle w Hloop Hidle) Hstep) as (_ & ->).
    exact IH.
  - assert (Hidle : gameState (st w) <> PLAYING).
    { cbn [step] in Hstep. destruct (gameState (st w)); discriminate. }
    destruct (step_menu w w' Hq (loopOk_idle w Hloop Hidle) Hstep) as (_ & ->).
    exact IH.
  - destruct (step_timer id w w' Hq Hstep) as (t & _ & _ & ->). exact IH.
  - cbn [step] in Hstep. destruct (_ && _); [|discriminate].
    injection Hstep as <-. exact IH.
  - cbn [step] in Hstep. injection Hstep as <-. unfold handleResize. wsimpl.
    rewrite IH. reflexivity.
Qed.

(** The canvas always exists and has the size of the window, so that a
    frame never skips the collision test; resizing the window resizes the
    canvas and changes nothing else of the game. *)
Theorem canvas_fills_window (w : World R) :
  reachable w ->
  canvasRef w = Some (innerSize w) /\
  forall width height w',
    step (Resize width height) w = Some w' ->
    canvasRef w' = Some (width, height) /\ innerSize w' = (width, height) /\
    st w' = st w /\ obstaclesRef w' = obstaclesRef w /\
    particlesRef w' = particlesRef w /\ speedRef w' = speedRef w /\
    frames w' = frames w /\ timers w' = timers w.
Proof.
  intros Hr. pose proof (reachable_canvas w Hr) as Hc. split; [exact Hc|].
  intros width height w' Hstep. cbn [step] in Hstep. injection Hstep as <-.
  unfold handleResize. wsimpl. rewrite Hc. repeat split.
Qed.

(** The frame that is pending in a reachable world, and what it does to the
    obstacles. *)
Lemma frame_obstacles time (w w' : World R) :
  reachable w -> step (Frame time) w = Some w' ->
  exists id rd,
    frames w = [(id, rd)] /\ closureOk rd /\
    let w0 := beforePass time (set_frames [] w) in
    obstaclesRef w' = survivors rd w0 (obstaclesRef w0) /\
    canvasRef w0 = Some (innerSize w) /\ innerSize w0 = innerSize w /\
    innerSize w' = innerSize w /\
    speedRef w0 = speedRef w + SPEED_INCREMENT.
Proof.
  intros Hr Hstep.
  pose proof (reachable_Inv w Hr) as ((Hq & Ha & Hl & Hs & Hg) & Hloop).
  unfold loopOk in Hloop.
  destruct (frames w) as [|[id rd] [|f fs]] eqn:Hfr;
    [cbn [step] in Hstep; rewrite Hfr in Hstep; discriminate| |contradiction].
  destruct Hloop as (_ & Hc & Hp). pose proof Hc as (C1 & C2 & C3 & C4 & C5).
  destruct (frame_step time w id rd Hq Hfr C1 C4 Hp (proj2 Ha))
    as (w1 & Hs1 & _ & _ & _ & _ & _ & _ & _ & F8 & _ & _ & _ & F12).
  rewrite Hs1 in Hstep. injection Hstep as <-.
  exists id, rd. split; [reflexivity|]. split; [exact Hc|]. cbv zeta.
  destruct (beforePass_fields time (set_frames [] w)) as
    (_ & _ & Hsp & _ & _ & _ & _ & Hcv & Hin & _).
  rewrite Hcv, Hin, Hsp. wsimpl.
  repeat split; auto. exact (reachable_canvas w Hr).
Qed.

Lemma survivors_In (rd : Render) (w : World R) l o' :
  In o' (survivors rd w l) ->
  exists o, In o l /\ o' = advance o w /\ hits rd w o = false /\ onScreen w o = true.
Proof.
  unfold survivors. intros Hin. apply in_map_iff in Hin.
  destruct Hin as (o & <- & Hf). apply filter_In in Hf. destruct Hf as (Hin & Hk).
  apply andb_true_iff in Hk. destruct Hk as (Hh & Ho).
  exists o. repeat split; auto. now apply negb_true_iff.
Qed.

Lemma survivors_length (rd : Render) (w : World R) l :
  (List.length (survivors rd w l) <= List.length l)%nat.
Proof.
  unfold survivors. rewrite length_map. apply filter_length_le.
Qed.

Lemma spawnObstacle_obstacles (w : World R) :
  exists o, obstaclesRef (spawnObstacle w) = obstaclesRef w ++ [o] /\
    ob_y o = num_of_Z (-100) /\
    ob_lane o = num_floor (Math_random (draws w) * num_of_Z LANES).
Proof.
  unfold spawnObstacle, random. wsimpl. eexists. split; [reflexivity|].
  split; reflexivity.
Qed.

Lemma beforePass_obstacles time (w : World R) :
  obstaclesRef (beforePass time w) = obstaclesRef w \/
  exists o, obstaclesRef (beforePass time w) = obstaclesRef w ++ [o] /\
    ob_y o = num_of_Z (-100) /\
    ob_lane o = num_floor (Math_random (S (draws w)) * num_of_Z LANES).
Proof.
  unfold beforePass, spawnPhase, random. wsimpl.
  destruct (_ <? _); [right|left; reflexivity].
  match goal with |- context [spawnObstacle ?v] =>
    destruct (spawnObstacle_obstacles v) as (o & E & Hy & Hl) end.
  exists o. rewrite E. wsimpl. auto.
Qed.

(** After a frame no obstacle is left that the collision test, made for
    the middle lane, declares a collision for, none that is 100 pixels or
    more below the window, and at most one obstacle was added. *)
Theorem obstacles_after_frame time (w w' : World R) :
  reachable w -> step (Frame time) w = Some w' ->
  Forall (fun o =>
            collides (fst (innerSize w')) (snd (innerSize w')) 1 (ob_lane o) (ob_y o)
            = false /\
            (ob_y o <? snd (innerSize w') + num_of_Z 100) = true)
         (obstaclesRef w') /\
  (List.length (obstaclesRef w') <= S (List.length (obstaclesRef w)))%nat.
Proof.
  intros Hr Hstep.
  destruct (frame_obstacles time w w' Hr Hstep)
    as (id & rd & Hfr & (_ & _ & _ & _ & C5) & Hobs & Hcv & Hin & Hin' & _).
  rewrite Hobs, Hin'. split.
  - apply Forall_forall. intros o' Ho'.
    destruct (survivors_In rd _ _ o' Ho') as (o & _ & -> & Hh & Hon).
    unfold hits in Hh. rewrite Hcv in Hh. unfold onScreen in Hon.
    rewrite Hin in Hon. rewrite C5 in Hh.
    destruct (innerSize w) as [width height]. cbn [fst snd] in *. auto.
  - eapply Nat.le_trans; [apply survivors_length|].
    destruct (beforePass_obstacles time (set_frames [] w)) as [E|(o & E & _)];
      rewrite E; wsimpl; [lia|]. rewrite length_app. cbn. lia.
Qed.

(** The obstacles and particles across an event that is no frame: the start
    command empties both lists, nothing else touches them. *)
Lemma step_lists e (w w' : World R) :
  reachable w -> isFrame e = false -> step e w = Some w' ->
  obstaclesRef w' = (if isStart e then [] else obstaclesRef w) /\
  particlesRef w' = (if isStart e then [] else particlesRef w).
Proof.
  intros Hr He Hstep.
  pose proof (reachable_Inv w Hr) as ((Hq & Ha & Hl & Hs & Hg) & Hloop).
  destruct e as [time|key|touchX| | |id|dt|width height]; [discriminate|..];
    cbn [isStart].
  - rewrite (step_key key w w' Hq Hstep). split; reflexivity.
  - rewrite (step_touch touchX w w' Hq Hstep). split; reflexivity.
  - assert (Hidle : gameState (st w) <> PLAYING).
    { cbn [step] in Hstep. destruct (gameState (st w)); discriminate. }
    destruct (step_start w w' Hq (loopOk_idle w Hloop Hidle) Hstep) as (_ & ->).
    split; reflexivity.
  - assert (Hidle : gameState (st w) <> PLAYING).
    { cbn [step] in Hstep. destruct (gameState (st w)); discriminate. }
    destruct (step_menu w w' Hq (loopOk_idle w Hloop Hidle) Hstep) as (_ & ->).
    split; reflexivity.
  - destruct (step_timer id w w' Hq Hstep) as (t & _ & _ & ->). split; reflexivity.
  - cbn [step] in Hstep. destruct (_ && _); [|discriminate].
    injection Hstep as <-. split; reflexivity.
  - cbn [step] in Hstep. injection Hstep as <-. unfold handleResize.
    destruct (canvasRef _); split; reflexivity.
Qed.

End Loop.

(** ** The collision test *)

Section Geometry.

Context {host : Host Q}.

Local Open Scope Q_scope.

Lemma num_ltb_lt (x y : Q) : (x <? y)%js = true <-> x < y.
Proof.
  cbn [num_ltb Q_JSNumber]. rewrite Qlt_alt.
  destruct (x ?= y); split; intros H; congruence.
Qed.

Lemma laneCenter_diff (width : Q) (lane pl : Z) :
  laneCenter width lane - laneCenter width pl == inject_Z (100 * (lane - pl)).
Proof.
  unfold laneCenter, lit. cbn [num_add num_sub num_mul num_div num_of_Z Q_JSNumber].
  unfold LANE_WIDTH. rewrite inject_Z_mult. unfold Zminus. rewrite inject_Z_plus, inject_Z_opp.
  field.
Qed.

Lemma hitRange_exact : hitRange == 45.
Proof. reflexivity. Qed.

(** The collision test, in exact arithmetic: an obstacle collides exactly
    when it is in the lane of the player and its height differs by less
    than 45 from the height of the player, which is 100 above the bottom of
    the canvas; the width of the canvas plays no part. *)
Theorem collides_same_lane (width height : Q) (pl lane : Z) (y : Q) :
  collides width height pl lane y = true
  <-> lane = pl /\ Qabs (y - (height - 100)) < 45.
Proof.
  unfold collides. cbv zeta. rewrite andb_true_iff, !num_ltb_lt.
  cbn [num_abs num_sub num_of_Z Q_JSNumber].
  rewrite laneCenter_diff, hitRange_exact.
  change (inject_Z 100) with 100.
  assert (Hd : Qabs (inject_Z (100 * (lane - pl))) < 45 <-> lane = pl).
  { change (Qabs (inject_Z (100 * (lane - pl))))
      with (inject_Z (Z.abs (100 * (lane - pl)))).
    change 45 with (inject_Z 45). rewrite <- Zlt_Qlt. lia. }
  rewrite Hd. reflexivity.
Qed.

End Geometry.

(** ** Pending timeouts *)

Section Timers.

Context {R : Type} {num : JSNumber R} {host : Host R}.

Local Open Scope js_scope.



















End Timers.

(** ** The message and the high score *)

Section Records.

Context {R : Type} {num : JSNumber R} {host : Host R}.

Local Open Scope js_scope.

Lemma hasText_app q1 q2 : hasText (q1 ++ q2) = hasText q1 || hasText q2.
Proof. apply existsb_app. Qed.

Lemma frameUpdate_act (rd : Render) q :
  Forall (frameUpdate rd) q -> Forall (frameAct rd) q.
Proof. apply Forall_impl. intros a (H & _). exact H. Qed.

(** The updates queued by one call of the obstacle callback. *)
Lemma obstacleCallback_queue (rd : Render) obs (w : World R) :
  exists q,
    queue (snd (obstacleCallback rd obs w)) = queue w ++ q /\
    st (snd (obstacleCallback rd obs w)) = st w /\
    Forall (frameUpdate rd) q /\ hasText q = ended q.
Proof.
  unfold obstacleCallback.
  destruct (canvasRef w) as [[width height]|];
    [|exists []; rewrite app_nil_r; repeat split; constructor].
  destruct (collides _ _ _ _ _);
    [|exists []; rewrite app_nil_r; repeat split; constructor].
  destruct (ob_type _).
  - destruct (isFlowState rd) eqn:Hf; cbn [snd].
    + hide_particles. rewrite triggerShake_nf. unfold enqueue. wsimpl.
      exists [AddScore 50; SetIsShaking true]. rewrite <- app_assoc.
      repeat split; try reflexivity.
      repeat (apply Forall_cons; [split; cbn; auto|]). apply Forall_nil.
    + rewrite endGame_nf. wsimpl. eexists. split; [reflexivity|].
      split; [reflexivity|]. split.
      * apply Forall_cons; [split; cbn; auto|].
        apply Forall_cons; [split; [exact I|eexists; reflexivity]|].
        destruct (gt_jsint _ _) eqn:Hgt; [|apply Forall_nil].
        apply Forall_cons; [split; cbn; auto|apply Forall_nil].
      * destruct (gt_jsint _ _); reflexivity.
  - cbn [snd]. hide_particles. rewrite triggerShake_nf. unfold enqueue. wsimpl.
    exists [BumpAura (isFlowState rd); SetIsShaking true]. rewrite <- app_assoc.
    repeat split; try reflexivity.
    repeat (apply Forall_cons; [split; cbn; auto|]). apply Forall_nil.
Qed.

Lemma filterObstacles_queue (rd : Render) l (w : World R) :
  exists q,
    queue (snd (filterObstacles rd l w)) = queue w ++ q /\
    st (snd (filterObstacles rd l w)) = st w /\
    Forall (frameUpdate rd) q /\ hasText q = ended q.
Proof.
  revert w. induction l as [|obs rest IH]; intros w.
  - exists []. cbn [filterObstacles snd]. rewrite app_nil_r. repeat split; constructor.
  - cbn [filterObstacles].
    destruct (obstacleCallback_queue rd obs w) as (q1 & Q1 & S1 & F1 & T1).
    destruct (obstacleCallback rd obs w) as [[keep obs'] w1]. cbn [snd] in Q1, S1.
    destruct (IH w1) as (q2 & Q2 & S2 & F2 & T2).
    destruct (filterObstacles rd rest w1) as [kept w2]. cbn [snd] in *.
    exists (q1 ++ q2). rewrite Q2, Q1, S2, S1, <- app_assoc, hasText_app, ended_app, T1, T2.
    repeat split. apply Forall_app. split; assumption.
Qed.

Lemma update_queue (rd : Render) time (w : World R) :
  gameState rd = PLAYING ->
  exists q,
    queue (update rd time w) = queue w ++ q ++ [AddScore 1] /\
    st (update rd time w) = st w /\
    Forall (frameUpdate rd) q /\ hasText q = ended q.
Proof.
  intros Hp. rewrite (update_playing rd time w Hp).
  unfold requestAnimationFrame, enqueue, particlePass.
  match goal with
  | |- context [playerTrail rd ?x] =>
      destruct (playerTrail_nf rd x) as (trail & _ & ->)
  end.
  unfold obstaclePass.
  destruct (beforePass_fields time w) as (Hst & Hq & _).
  destruct (filterObstacles_queue rd (obstaclesRef (beforePass time w)) (beforePass time w))
    as (q & Q & S & F & T).
  destruct (filterObstacles rd _ (beforePass time w)) as [kept w2]. cbn [snd] in Q, S.
  exists q. wsimpl. rewrite Q, S, Hq, Hst, <- app_assoc. auto.
Qed.

(** The state after the frame that is pending in a reachable world: the
    updates of [update] are applied, then those of the activations. *)
Lemma frame_render time (w w' : World R) :
  reachable w -> step (Frame time) w = Some w' ->
  exists id rd q n,
    frames w = [(id, rd)] /\ closureOk rd /\
    Forall (frameUpdate rd) q /\ hasText q = ended q /\
    st w' = fold_left reduce (List.concat (repeat activationUpdates n))
              (fold_left reduce (q ++ [AddScore 1]) (st w)).
Proof.
  intros Hr Hstep.
  pose proof (reachable_Inv w Hr) as ((Hq & _) & Hloop).
  unfold loopOk in Hloop.
  destruct (frames w) as [|[id rd] [|f fs]] eqn:Hfr;
    [cbn [step] in Hstep; rewrite Hfr in Hstep; discriminate| |contradiction].
  destruct Hloop as (_ & Hc & _). pose proof Hc as (C1 & _ & _ & C4 & _).
  cbn [step] in Hstep. rewrite Hfr in Hstep. injection Hstep as <-.
  destruct (update_queue rd time (set_frames [] w) C1) as (q & Q & S & F & T).
  wsimpl_in Q. rewrite Hq in Q. cbn [app] in Q. wsimpl_in S.
  assert (HFa : Forall (frameAct rd) (q ++ [AddScore 1])).
  { apply Forall_app; split; [apply frameUpdate_act, F|].
    apply Forall_cons; [cbn; auto|apply Forall_nil]. }
  destruct (nested_frame rd _ C4 HFa (st w)) as (n & N0 & _).
  exists id, rd, q, n. split; [reflexivity|]. split; [exact Hc|].
  split; [exact F|]. split; [exact T|].
  unfold rerender.
  destruct (gameStateEffect_fields (gameState (st (update rd time (set_frames [] w))))
              (renderState (update rd time (set_frames [] w)))) as (E1 & _).
  rewrite E1. destruct (renderState_spec (update rd time (set_frames [] w))) as (R1 & _).
  rewrite R1, Q, S, N0. reflexivity.
Qed.

Lemma fold_activations_fields n s :
  let s' := fold_left reduce (List.concat (repeat activationUpdates n)) s in
  gameState s' = gameState s /\ highScore s' = highScore s /\
  gameOverText s' = gameOverText s /\ score s' = score s.
Proof.
  destruct n as [|n]; [cbn; auto|]. cbv zeta. rewrite fold_reduce_activations. cbn. auto.
Qed.

Lemma fold_text (rd : Render) q :
  Forall (frameUpdate rd) q ->
  forall s,
    let s' := fold_left reduce q s in
    (hasText q = false -> gameOverText s' = gameOverText s) /\
    (hasText q = true -> drawnMessage (gameOverText s')) /\
    (gt_jsint (score rd) (highScore rd) = false -> highScore s' = highScore s).
Proof.
  induction 1 as [|a q (Ha & Hm) _ IH]; intros s; cbn [fold_left].
  - cbv zeta. cbn. repeat split; auto; discriminate.
  - destruct (IH (reduce s a)) as (H1 & H2 & H3). cbv zeta.
    unfold hasText. cbn [existsb]. fold (hasText q).
    destruct (hasText q) eqn:Hq.
    + rewrite orb_true_r. repeat split; auto; try discriminate.
      intros Hgt. rewrite (H3 Hgt).
      destruct a; cbn [frameAct] in Ha; try contradiction; try reflexivity.
      destruct Ha as (_ & Ha). congruence.
    + rewrite orb_false_r. split; [|split].
      * intros Ht. rewrite (H1 eq_refl). destruct a; try discriminate; reflexivity.
      * intros Ht. rewrite (H1 eq_refl). destruct a; try discriminate. exact Hm.
      * intros Hgt. rewrite (H3 Hgt).
        destruct a; cbn [frameAct] in Ha; try contradiction; try reflexivity.
        destruct Ha as (_ & Ha). congruence.
Qed.

(** A frame chooses a message whenever it ends the run, and leaves the
    message alone otherwise; it writes the high score only if the score its
    [update] sees exceeds the high score that [update] sees. *)
Lemma frame_text time (w w' : World R) :
  reachable w -> step (Frame time) w = Some w' ->
  (gameState (st w') = GAME_OVER -> drawnMessage (gameOverText (st w'))) /\
  (gameState (st w') <> GAME_OVER -> gameOverText (st w') = gameOverText (st w)) /\
  (gt_jsint 0 (highScore (pendingClosure w)) = false ->
   highScore (st w') = highScore (st w)).
Proof.
  intros Hr Hstep.
  destruct (frame_render time w w' Hr Hstep) as (id & rd & q & n & Hfr & Hc & F & T & ->).
  pose proof Hc as (C1 & C2 & _ & C4 & _).
  destruct (fold_activations_fields n (fold_left reduce (q ++ [AddScore 1]) (st w)))
    as (A1 & A2 & A3 & _).
  rewrite A1, A2, A3. rewrite fold_left_app. cbn [fold_left reduce]. wsimpl.
  destruct (fold_text rd q F (st w)) as (H1 & H2 & H3).
  destruct (reduce_frame rd q (frameUpdate_act rd q F) (st w)) as (G1 & _).
  cbv zeta in *. rewrite G1, <- T. unfold pendingClosure. rewrite Hfr, <- C2.
  destruct (hasText q).
  - repeat split; auto. intros Hne. contradiction.
  - destruct (reachable_Inv w Hr) as (_ & Hloop). unfold loopOk in Hloop.
    rewrite Hfr in Hloop. destruct Hloop as (_ & _ & ->).
    repeat split; auto. discriminate.
Qed.

Lemma lane_actions_text q s :
  Forall (fun a => a = LaneLeft \/ a = LaneRight) q ->
  gameOverText (fold_left reduce q s) = gameOverText s.
Proof.
  intros Hq. revert s. induction Hq as [|a q Ha Hq IH]; intros s; cbn [fold_left];
    [reflexivity|].
  rewrite IH. destruct Ha as [-> | ->]; reflexivity.
Qed.

(** The message, the high score and the storage across an event that is no
    frame. *)
Lemma step_keeps_record e (w w' : World R) :
  reachable w -> isFrame e = false -> step e w = Some w' ->
  gameOverText (st w') = gameOverText (st w) /\
  highScore (st w') = highScore (st w) /\
  storage w' = storage w /\
  gameState (st w')
  = match e with
    | ClickStart => PLAYING
    | ClickMenu => MENU
    | _ => gameState (st w)
    end.
Proof.
  intros Hr He Hstep.
  pose proof (reachable_Inv w Hr) as ((Hq & Ha & Hl & Hs & Hg) & Hloop).
  destruct e as [time|key|touchX| | |id|dt|width height]; [discriminate|..].
  - rewrite (step_key key w w' Hq Hstep).
    destruct (lane_actions _ (st w) (keyActions_lane (st w) key))
      as (L1 & L2 & L3 & L4 & L5 & L6).
    wsimpl. rewrite L1, L3, (lane_actions_text _ _ (keyActions_lane (st w) key)).
    repeat split.
  - rewrite (step_touch touchX w w' Hq Hstep).
    destruct (lane_actions _ (st w) (touchActions_lane (st w) touchX w))
      as (L1 & L2 & L3 & L4 & L5 & L6).
    wsimpl.
    rewrite L1, L3, (lane_actions_text _ _ (touchActions_lane (st w) touchX w)).
    repeat split.
  - assert (Hidle : gameState (st w) <> PLAYING).
    { cbn [step] in Hstep. destruct (gameState (st w)); discriminate. }
    destruct (step_start w w' Hq (loopOk_idle w Hloop Hidle) Hstep) as (_ & ->).
    rewrite start_state. repeat split.
  - assert (Hidle : gameState (st w) <> PLAYING).
    { cbn [step] in Hstep. destruct (gameState (st w)); discriminate. }
    destruct (step_menu w w' Hq (loopOk_idle w Hloop Hidle) Hstep) as (_ & ->).
    repeat split.
  - destruct (step_timer id w w' Hq Hstep) as (t & _ & _ & ->).
    destruct (t_cb t); repeat split.
  - cbn [step] in Hstep. destruct (_ && _); [|discriminate].
    injection Hstep as <-. repeat split.
  - cbn [step] in Hstep. injection Hstep as <-. unfold handleResize.
    destruct (canvasRef _); repeat split.
Qed.

(** Whenever the game is over, the message on display was chosen by
    [endGame]. *)
Lemma reachable_message (w : World R) :
  reachable w -> gameState (st w) = GAME_OVER -> drawnMessage (gameOverText (st w)).
Proof.
  induction 1 as [inner saved now|w e w' Hr IH Hstep]; [discriminate|].
  destruct (isFrame e) eqn:He.
  - destruct e; try discriminate.
    exact (proj1 (frame_text time w w' Hr Hstep)).
  - destruct (step_keeps_record e w w' Hr He Hstep) as (-> & _ & _ & ->).
    destruct e; try discriminate; exact IH.
Qed.

(** The high score, in the state and in local storage, never changes
    unless the stored high score is negative. *)
Lemma run_keeps_high_score es (w w' : World R) :
  reachable w ->
  gt_jsint 0 (highScore (st w)) = false ->
  highScore (pendingClosure w) = highScore (st w) ->
  run es w = Some w' ->
  highScore (st w') = highScore (st w) /\ storage w' = storage w.
Proof.
  revert w. induction es as [|e es IH]; intros w Hr Hgt Hcl Hrun; cbn [run] in Hrun.
  - injection Hrun as <-. auto.
  - destruct (step e w) as [w1|] eqn:Hs; [|discriminate].
    assert (H1 : highScore (st w1) = highScore (st w) /\ storage w1 = storage w /\
                 highScore (pendingClosure w1) = highScore (st w1)).
    { destruct (isFrame e) eqn:He.
      - destruct e; try discriminate.
        assert (Hgt' : gt_jsint 0 (highScore (pendingClosure w)) = false)
          by (now rewrite Hcl).
        destruct (frame_text time w w1 Hr Hs) as (_ & _ & H3).
        pose proof (H3 Hgt') as E1.
        pose proof (frame_never_saves time w w1 Hr Hs Hgt') as E2.
        split; [exact E1|]. split; [exact E2|].
        destruct (reachable_Inv w Hr) as ((Hq & Ha & _) & Hloop).
        unfold loopOk in Hloop. unfold pendingClosure in Hcl |- *.
        destruct (frames w) as [|[id rd] [|f fs]] eqn:Hfr;
          [cbn [step] in Hs; rewrite Hfr in Hs; discriminate| |contradiction].
        destruct Hloop as (_ & (C1 & C2 & C3 & C4 & C5) & Hp).
        destruct (frame_step time w id rd Hq Hfr C1 C4 Hp (proj2 Ha))
          as (w2 & Hs2 & _ & _ & _ & _ & _ & _ & _ & _ & F9 & _).
        assert (w2 = w1) by congruence. subst w2.
        destruct (0 <? _)%Z; [rewrite F9; reflexivity|].
        destruct F9 as (h & -> & _). rewrite E1. exact Hcl.
      - destruct (step_keeps_record e w w1 Hr He Hs) as (_ & H2 & H3 & _).
        split; [exact H2|]. split; [exact H3|].
        destruct (reachable_Inv w Hr) as ((Hq & _) & Hloop).
        unfold pendingClosure in *.
        destruct e as [time|key|touchX| | |id|dt|width height]; [discriminate|..].
        + rewrite (step_key key w w1 Hq Hs) in *. wsimpl. wsimpl_in H2.
          destruct (frames w); [reflexivity|]. destruct p. congruence.
        + rewrite (step_touch touchX w w1 Hq Hs) in *. wsimpl. wsimpl_in H2.
          destruct (frames w); [reflexivity|]. destruct p. congruence.
        + assert (Hidle : gameState (st w) <> PLAYING).
          { cbn [step] in Hs. destruct (gameState (st w)); discriminate. }
          rewrite (proj2 (step_start w w1 Hq (loopOk_idle w Hloop Hidle) Hs)).
          unfold requestAnimationFrame. wsimpl.
          rewrite (loopOk_idle w Hloop Hidle). reflexivity.
        + assert (Hidle : gameState (st w) <> PLAYING).
          { cbn [step] in Hs. destruct (gameState (st w)); discriminate. }
          rewrite (proj2 (step_menu w w1 Hq (loopOk_idle w Hloop Hidle) Hs)).
          wsimpl. rewrite (loopOk_idle w Hloop Hidle). reflexivity.
        + destruct (step_timer id w w1 Hq Hs) as (t & _ & _ & E). rewrite E in *.
          unfold clearTimeout. wsimpl. wsimpl_in H2.
          destruct (frames w); [reflexivity|]. destruct p. congruence.
        + cbn [step] in Hs. destruct (_ && _); [|discriminate].
          injection Hs as <-. exact Hcl.
        + cbn [step] in Hs. injection Hs as <-. unfold handleResize.
          destruct (canvasRef _); exact Hcl. }
    destruct H1 as (E1 & E2 & E3).
    destruct (IH w1 (reach_step e Hr Hs)) as (I1 & I2); [congruence|exact E3|exact Hrun|].
    split; congruence.
Qed.

(** Unless the stored high score is negative, no sequence of events
    changes the high score or writes to local storage: [endGame] compares
    the score its render saw, which is 0, with the high score. *)
Theorem high_score_frozen inner saved now es (w : World R) :
  gt_jsint 0 (initialHighScore saved) = false ->
  run es (mount inner saved now) = Some w ->
  highScore (st w) = initialHighScore saved /\ storage w = saved.
Proof.
  intros Hgt Hrun.
  exact (run_keeps_high_score es (mount inner saved now) w
           (reach_mount inner saved now) Hgt eq_refl Hrun).
Qed.

End Records.

(** ** Particles *)

Section Particles.

Context {R : Type} {num : JSNumber R} {host : Host R}.

Local Open Scope js_scope.

Lemma createParticle_new (x y : R) (color : string) (options : Options R) (w : World R) :
  createParticle x y color options w
  = set_particlesRef (particlesRef w ++ [newParticle x y color options (draws w)])
      (set_draws (5 + draws w) w).
Proof. reflexivity. Qed.

Lemma createParticles_new (x y : R) (color : string) (count : nat)
  (options : Options R) (w : World R) :
  createParticles x y color count options w
  = set_particlesRef (particlesRef w ++ newParticles x y color options count (draws w))
      (set_draws (5 * count + draws w) w).
Proof.
  revert w. induction count as [|n IH]; intros w;
    with_strategy transparent [createParticles] cbn [createParticles newParticles].
  - rewrite app_nil_r. destruct w; reflexivity.
  - rewrite IH, createParticle_new. wsimpl. rewrite <- app_assoc. cbn [app].
    replace (5 * n + (5 + draws w))%nat with (5 * S n + draws w)%nat by lia.
    reflexivity.
Qed.

(** [createParticles] appends [count] particles to those there are, each
    at [(x, y)], of the given colour and with a full life, and advances the
    random source by five draws per particle; nothing else changes. *)
Theorem createParticles_appends (x y : R) (color : string) (count : nat)
  (options : Options R) (w : World R) :
  createParticles x y color count options w
  = set_particlesRef (particlesRef w ++ newParticles x y color options count (draws w))
      (set_draws (5 * count + draws w) w) /\
  List.length (newParticles x y color options count (draws w)) = count /\
  Forall (fun p => p_x p = x /\ p_y p = y /\ p_color p = color /\
                   p_life p = num_of_Z 1)
         (newParticles x y color options count (draws w)).
Proof.
  split; [apply createParticles_new|split].
  - generalize (draws w). induction count as [|n IH]; intros d; cbn [newParticles List.length];
      [reflexivity|now rewrite IH].
  - generalize (draws w). induction count as [|n IH]; intros d; cbn [newParticles];
      constructor; [cbn; auto|apply IH].
Qed.

(** [activateFlowState], spelled out. *)
Lemma activateFlowState_new (w : World R) :
  let cx := fst (innerSize w) / num_of_Z 2 in
  let cy := snd (innerSize w) / num_of_Z 2 in
  activateFlowState w
  = set_flowStateTimerRef (Some (Pos.succ (nextHandle w)))
      (set_shakeTimerRef (Some (nextHandle w))
         (set_nextHandle (Pos.succ (Pos.succ (nextHandle w)))
            (set_timers
               (withoutTimer (flowStateTimerRef w)
                  (withoutTimer (shakeTimerRef w) (timers w)
                   ++ [{| t_id := nextHandle w; t_due := (clock w + 500)%Z;
                          t_cb := ClearShake |}])
                ++ [{| t_id := Pos.succ (nextHandle w);
                       t_due := (clock w + FLOW_STATE_DURATION)%Z;
                       t_cb := ExpireFlow |}])
               (set_queue (queue w ++ activationUpdates)
                  (set_particlesRef
                     (particlesRef w
                      ++ newParticles cx cy "#00ffff" (sizeGlow 6 true) 100 (draws w)
                      ++ newParticles cx cy "#ff00ff" (sizeGlow 4 true) 50
                           (500 + draws w))
                     (set_draws (750 + draws w) w)))))).
Proof.
  cbv zeta. with_strategy transparent [activateFlowState] unfold activateFlowState.
  rewrite triggerShake_nf.
  rewrite (createParticles_new _ _ "#00ffff" 100).
  rewrite (createParticles_new _ _ "#ff00ff" 50).
  unfold setTimeout, clearTimeout, enqueue, withoutTimer, activationUpdates.
  wsimpl. cbn [app Nat.mul Nat.add]. rewrite <- !app_assoc. cbn [app].
  destruct (flowStateTimerRef w); reflexivity.
Qed.

(** ** A property of all particles *)

Section ParticleInvariant.

Variable PP : Particle R -> Prop.

Hypothesis PP_burst : forall x y color size glow d,
  (0 < size)%Z -> PP (newParticle x y color (sizeGlow size glow) d).

Hypothesis PP_trail : forall x y color vx vy (flow : bool) glow d,
  PP (newParticle x y color
        {| o_vx := Some vx; o_vy := Some vy;
           o_size := Some (num_of_Z (if flow then 8 else 4));
           o_glow := Some glow; o_maxLife := Some (lit 3 10) |} d).

Hypothesis PP_pass : forall p,
  PP p -> fst (particleCallback p) = true -> PP (snd (particleCallback p)).

Lemma particlesOk_view (w1 w2 : World R) :
  particlesRef w1 = particlesRef w2 -> particlesOk PP w1 -> particlesOk PP w2.
Proof. unfold particlesOk. now intros ->. Qed.

Lemma particlesOk_enqueue a (w : World R) : particlesOk PP w -> particlesOk PP (enqueue a w).
Proof. exact (fun H => H). Qed.

Lemma particlesOk_set_st s (w : World R) : particlesOk PP w -> particlesOk PP (set_st s w).
Proof. exact (fun H => H). Qed.

Lemma particlesOk_request (rd : Render) (w : World R) :
  particlesOk PP w -> particlesOk PP (requestAnimationFrame rd w).
Proof. exact (fun H => H). Qed.

Lemma newParticles_burst x y color size glow count d :
  (0 < size)%Z -> Forall PP (newParticles x y color (sizeGlow size glow) count d).
Proof.
  intros Hs. revert d.
  induction count as [|n IH]; intros d; cbn [newParticles]; constructor;
    [apply PP_burst, Hs|apply IH].
Qed.

Lemma particlesOk_burst x y color count size glow (w : World R) :
  (0 < size)%Z ->
  particlesOk PP w -> particlesOk PP (createParticles x y color count (sizeGlow size glow) w).
Proof.
  intros Hs Hok. rewrite createParticles_new.
  unfold particlesOk. wsimpl. apply Forall_app. split; [exact Hok|].
  apply newParticles_burst, Hs.
Qed.

Lemma particlesOk_triggerShake d (w : World R) :
  particlesOk PP w -> particlesOk PP (triggerShake d w).
Proof. apply particlesOk_view. now rewrite triggerShake_nf. Qed.

Lemma particlesOk_endGame (rd : Render) (w : World R) :
  particlesOk PP w -> particlesOk PP (endGame rd w).
Proof. apply particlesOk_view. now rewrite endGame_nf. Qed.

Lemma particlesOk_activateFlowState (w : World R) :
  particlesOk PP w -> particlesOk PP (activateFlowState w).
Proof.
  intros Hok. rewrite activateFlowState_new. unfold particlesOk. wsimpl.
  repeat (apply Forall_app; split); [exact Hok| |]; apply newParticles_burst; lia.
Qed.

Lemma particlesOk_obstacleCallback (rd : Render) obs (w : World R) :
  particlesOk PP w -> particlesOk PP (snd (obstacleCallback rd obs w)).
Proof.
  intros Hok. unfold obstacleCallback.
  destruct (canvasRef w) as [[width height]|]; [|exact Hok].
  destruct (collides _ _ _ _ _); [|exact Hok].
  destruct (ob_type _).
  - destruct (isFlowState rd); cbn [snd].
    + apply particlesOk_triggerShake, particlesOk_enqueue, particlesOk_burst;
        [lia|exact Hok].
    + apply particlesOk_endGame, Hok.
  - cbn [snd]. apply particlesOk_triggerShake.
    do 2 (apply particlesOk_burst; [lia|]).
    apply particlesOk_enqueue, Hok.
Qed.

Lemma particlesOk_filterObstacles (rd : Render) l (w : World R) :
  particlesOk PP w -> particlesOk PP (snd (filterObstacles rd l w)).
Proof.
  revert w. induction l as [|obs rest IH]; intros w Hok; [exact Hok|].
  cbn [filterObstacles].
  pose proof (particlesOk_obstacleCallback rd obs w Hok) as H1.
  destruct (obstacleCallback rd obs w) as [[keep obs'] w1]. cbn [snd] in H1.
  pose proof (IH w1 H1) as H2.
  destruct (filterObstacles rd rest w1) as [kept w2]. exact H2.
Qed.

Lemma filterParticles_Forall l : Forall PP l -> Forall PP (filterParticles l).
Proof.
  induction 1 as [|p l Hp _ IH]; cbn [filterParticles]; [constructor|].
  pose proof (PP_pass p Hp) as H1.
  destruct (particleCallback p) as [keep p']. cbn [fst snd] in H1.
  destruct keep; [constructor; auto|exact IH].
Qed.

Lemma particlesOk_playerTrail (rd : Render) (w : World R) :
  particlesOk PP w -> particlesOk PP (playerTrail rd w).
Proof.
  intros Hok. unfold playerTrail.
  destruct (canvasRef w) as [[width height]|]; [|exact Hok].
  unfold random. wsimpl. destruct (_ <? _); [|exact Hok].
  with_strategy transparent [createParticles] cbn [createParticles].
  rewrite createParticle_new. unfold particlesOk. wsimpl.
  apply Forall_app. split; [exact Hok|]. constructor; [apply PP_trail|constructor].
Qed.

Lemma particlesOk_update (rd : Render) time (w : World R) :
  particlesOk PP w -> particlesOk PP (update rd time w).
Proof.
  intros Hok. unfold update. destruct (negb _); [exact Hok|].
  apply particlesOk_request, particlesOk_enqueue, particlesOk_playerTrail. unfold particlePass, particlesOk. wsimpl.
  apply filterParticles_Forall. unfold obstaclePass.
  match goal with
  | |- context [filterObstacles rd ?l ?x] =>
      assert (H1 : particlesOk PP x);
      [|pose proof (particlesOk_filterObstacles rd l x H1) as H2;
        destruct (filterObstacles rd l x) as [kept w2]]
  end.
  - rewrite spawnPhase_nf. revert Hok. apply particlesOk_view. reflexivity.
  - exact H2.
Qed.

Lemma particlesOk_applyAction a (w : World R) :
  particlesOk PP w -> particlesOk PP (applyAction a w).
Proof.
  intros Hok. destruct a;
    match goal with
    | |- context [BumpAura] => idtac
    | _ => revert Hok; apply particlesOk_view; reflexivity
    end.
  unfold applyAction. destruct (_ && _).
  - apply particlesOk_set_st, particlesOk_activateFlowState, Hok.
  - revert Hok. apply particlesOk_view. reflexivity.
Qed.

Lemma particlesOk_processQueue (w : World R) :
  particlesOk PP w -> particlesOk PP (processQueue w).
Proof.
  intros Hok. unfold processQueue.
  assert (H0 : particlesOk PP (set_queue [] w))
    by (revert Hok; apply particlesOk_view; reflexivity).
  revert H0. generalize (set_queue [] w). generalize (queue w).
  induction l as [|a q IH]; intros w0 H0; [exact H0|].
  cbn [fold_left]. apply IH, particlesOk_applyAction, H0.
Qed.

Lemma particlesOk_rerender (w : World R) : particlesOk PP w -> particlesOk PP (rerender w).
Proof.
  intros Hok. unfold rerender.
  pose proof (particlesOk_processQueue _ (particlesOk_processQueue w Hok)) as H1.
  fold (renderState w) in H1. revert H1. apply particlesOk_view.
  destruct (gameStateEffect_fields (gameState (st w)) (renderState w))
    as (_ & _ & _ & _ & _ & _ & _ & _ & _ & _ & _ & _ & E).
  now rewrite E.
Qed.

Lemma step_particlesOk e (w w' : World R) :
  particlesOk PP w -> step e w = Some w' -> particlesOk PP w'.
Proof.
  intros Hok Hstep.
  destruct e as [time|key|touchX| | |id|dt|width height]; cbn [step] in Hstep.
  - destruct (frames w) as [|[id rd] rest]; [discriminate|].
    injection Hstep as <-. apply particlesOk_rerender, particlesOk_update.
    revert Hok. apply particlesOk_view. reflexivity.
  - injection Hstep as <-. apply particlesOk_rerender.
    rewrite handleKeyDown_nf. revert Hok. apply particlesOk_view. reflexivity.
  - injection Hstep as <-. apply particlesOk_rerender.
    rewrite handleTouchStart_nf. revert Hok. apply particlesOk_view. reflexivity.
  - destruct (gameState (st w)); try discriminate; injection Hstep as <-;
      apply particlesOk_rerender; rewrite startGame_nf; apply Forall_nil.
  - destruct (gameState (st w)); try discriminate; injection Hstep as <-.
    apply particlesOk_rerender. revert Hok. apply particlesOk_view. reflexivity.
  - destruct (findTimer id w) as [t|]; [|discriminate].
    destruct (t_due t <=? clock w)%Z; [|discriminate].
    injection Hstep as <-. apply particlesOk_rerender.
    revert Hok. apply particlesOk_view. destruct (t_cb t); reflexivity.
  - destruct (_ && _); [|discriminate]. injection Hstep as <-. exact Hok.
  - injection Hstep as <-. unfold handleResize. wsimpl.
    destruct (canvasRef w); revert Hok; apply particlesOk_view; reflexivity.
Qed.

Lemma reachable_particlesOk (w : World R) : reachable w -> particlesOk PP w.
Proof.
  induction 1 as [inner saved now|w e w' _ IH Hs].
  - apply Forall_nil.
  - exact (step_particlesOk e w w' IH Hs).
Qed.

End ParticleInvariant.

End Particles.

(** ** Steering and time stamps *)

Section Steering.

Context {R : Type} {num : JSNumber R} {host : Host R}.

Local Open Scope js_scope.

Lemma beforePass_set_st s time (w : World R) :
  beforePass time (set_st s w) = set_st s (beforePass time w).
Proof.
  unfold beforePass, spawnPhase, spawnObstacle, random. wsimpl.
  destruct (_ <? _); reflexivity.
Qed.

Lemma frameHits_set_st ty time s (w : World R) :
  frameHits ty time (set_st s w) = frameHits ty time w.
Proof.
  unfold frameHits. wsimpl. destruct (frames w) as [|[id rd] rest]; [reflexivity|].
  change (set_frames rest (set_st s w)) with (set_st s (set_frames rest w)).
  rewrite beforePass_set_st. wsimpl.
  apply stage_collisions. reflexivity.
Qed.

(** Steering is not seen by the frame loop: after a key or a touch the
    pending frame is the same and detects the same collisions as before;
    whatever the lane of the player has become, the collision test is made
    for the middle lane. *)
Theorem steering_is_not_seen (w : World R) :
  reachable w ->
  forall e w1,
    (exists key, e = KeyDown key) \/ (exists touchX, e = TouchStart touchX) ->
    step e w = Some w1 ->
    frames w1 = frames w /\
    (frames w1 <> [] -> playerLane (pendingClosure w1) = 1%Z) /\
    forall ty time, frameHits ty time w1 = frameHits ty time w.
Proof.
  intros Hr e w1 He Hstep.
  pose proof (reachable_Inv w Hr) as ((Hq & _) & _).
  assert (E : exists s, w1 = set_st s w).
  { destruct He as [(key & ->)|(touchX & ->)]; eexists.
    - exact (step_key key w w1 Hq Hstep).
    - exact (step_touch touchX w w1 Hq Hstep). }
  destruct E as (s & ->). split; [reflexivity|]. split.
  - intros Hne. destruct (reachable_Inv _ (reach_step e Hr Hstep)) as (_ & Hloop).
    unfold loopOk in Hloop. unfold pendingClosure.
    destruct (frames (set_st s w)) as [|[id rd] [|f fs]]; [contradiction| |contradiction].
    destruct Hloop as (_ & (_ & _ & _ & _ & C5) & _). exact C5.
  - intros ty time. apply frameHits_set_st.
Qed.

Lemma obstacleCallback_time (rd : Render) obs t (w : World R) :
  obstacleCallback rd obs (set_lastTimeRef t w)
  = let '(keep, obs', w') := obstacleCallback rd obs w in
    (keep, obs', set_lastTimeRef t w').
Proof.
  unfold obstacleCallback, advance, collides. wsimpl.
  destruct (canvasRef w) as [[width height]|]; [|reflexivity].
  destruct (_ && _); [|reflexivity].
  destruct (ob_type obs).
  - destruct (isFlowState rd).
    + rewrite !createParticles_new, !triggerShake_nf. reflexivity.
    + rewrite !endGame_nf. reflexivity.
  - rewrite !createParticles_new, !triggerShake_nf. reflexivity.
Qed.

Lemma filterObstacles_time (rd : Render) l t (w : World R) :
  filterObstacles rd l (set_lastTimeRef t w)
  = let (kept, w') := filterObstacles rd l w in (kept, set_lastTimeRef t w').
Proof.
  revert w. induction l as [|obs rest IH]; intros w; [reflexivity|].
  cbn [filterObstacles]. rewrite obstacleCallback_time.
  destruct (obstacleCallback rd obs w) as [[keep obs'] w1]. rewrite IH.
  destruct (filterObstacles rd rest w1) as [kept w2]. reflexivity.
Qed.

Lemma spawnPhase_time t (w : World R) :
  spawnPhase (set_lastTimeRef t w) = set_lastTimeRef t (spawnPhase w).
Proof.
  unfold spawnPhase, spawnObstacle, random. wsimpl. destruct (_ <? _); reflexivity.
Qed.

Lemma obstaclePass_time (rd : Render) t (w : World R) :
  obstaclePass rd (set_lastTimeRef t w) = set_lastTimeRef t (obstaclePass rd w).
Proof.
  unfold obstaclePass. wsimpl. rewrite filterObstacles_time.
  destruct (filterObstacles rd (obstaclesRef w) w) as [kept w1]. reflexivity.
Qed.

Lemma playerTrail_time (rd : Render) t (w : World R) :
  playerTrail rd (set_lastTimeRef t w) = set_lastTimeRef t (playerTrail rd w).
Proof.
  unfold playerTrail, random. wsimpl.
  destruct (canvasRef w) as [[width height]|]; [|reflexivity].
  destruct (_ <? _); [|reflexivity].
  rewrite !createParticles_new. reflexivity.
Qed.

(** The part of [update] that follows [lastTimeRef.current = time]. *)
Lemma update_time (rd : Render) t (w : World R) :
  gameState rd = PLAYING ->
  update rd t w
  = set_lastTimeRef t
      (requestAnimationFrame rd
         (enqueue (AddScore 1)
            (playerTrail rd
               (particlePass
                  (obstaclePass rd
                     (spawnPhase (set_speedRef (speedRef w + SPEED_INCREMENT) w))))))).
Proof.
  intros Hp. unfold update. rewrite Hp. cbn [GameState_eqb negb].
  change (set_speedRef (speedRef (set_lastTimeRef t w) + SPEED_INCREMENT)
            (set_lastTimeRef t w))
    with (set_lastTimeRef t (set_speedRef (speedRef w + SPEED_INCREMENT) w)).
  rewrite spawnPhase_time, obstaclePass_time.
  change (particlePass (set_lastTimeRef t ?x)) with (set_lastTimeRef t (particlePass x)).
  rewrite playerTrail_time. reflexivity.
Qed.

Lemma applyAction_time a t (w : World R) :
  applyAction a (set_lastTimeRef t w) = set_lastTimeRef t (applyAction a w).
Proof.
  destruct a; try reflexivity.
  unfold applyAction. wsimpl. destruct (_ && _); [|reflexivity].
  rewrite !activateFlowState_new. reflexivity.
Qed.

Lemma fold_applyAction_time q t (w : World R) :
  fold_left (fun w a => applyAction a w) q (set_lastTimeRef t w)
  = set_lastTimeRef t (fold_left (fun w a => applyAction a w) q w).
Proof.
  revert w. induction q as [|a q IH]; intros w; [reflexivity|].
  cbn [fold_left]. now rewrite applyAction_time, IH.
Qed.

Lemma rerender_time t (w : World R) :
  rerender (set_lastTimeRef t w) = set_lastTimeRef t (rerender w).
Proof.
  unfold rerender, renderState, processQueue. wsimpl.
  change (set_queue [] (set_lastTimeRef t w)) with (set_lastTimeRef t (set_queue [] w)).
  rewrite fold_applyAction_time. wsimpl.
  change (set_queue [] (set_lastTimeRef t ?x)) with (set_lastTimeRef t (set_queue [] x)).
  rewrite fold_applyAction_time.
  generalize (fold_left (fun w0 a => applyAction a w0)
                (queue (fold_left (fun w0 a => applyAction a w0) (queue w) (set_queue [] w)))
                (set_queue []
                   (fold_left (fun w0 a => applyAction a w0) (queue w) (set_queue [] w)))).
  intros x. unfold gameStateEffect, cancelRequest, cancelAnimationFrame,
    requestAnimationFrame. wsimpl.
  destruct (GameState_eqb (gameState (st w)) (gameState (st x))); [reflexivity|].
  destruct (requestRef x); wsimpl;
    (destruct (GameState_eqb (gameState (st x)) PLAYING); wsimpl; [reflexivity|]);
    destruct (requestRef x); reflexivity.
Qed.

Lemma set_lastTimeRef_same (x : World R) :
  x = set_lastTimeRef (lastTimeRef x) x.
Proof. destruct x; reflexivity. Qed.

Lemma set_lastTimeRef_over (t1 t2 : R) (x : World R) :
  set_lastTimeRef t1 x
  = set_lastTimeRef (lastTimeRef (set_lastTimeRef t1 x)) (set_lastTimeRef t2 x).
Proof. reflexivity. Qed.

Lemma frame_time_playing (rd : Render) t1 t2 (w : World R) :
  gameState rd = PLAYING ->
  rerender (update rd t1 w)
  = set_lastTimeRef (lastTimeRef (rerender (update rd t1 w))) (rerender (update rd t2 w)).
Proof.
  intros Hp.
  rewrite (update_time rd t1 w Hp), (update_time rd t2 w Hp), !rerender_time.
  apply set_lastTimeRef_over.
Qed.

Lemma frame_time_idle (rd : Render) t1 t2 (w : World R) :
  gameState rd <> PLAYING ->
  rerender (update rd t1 w)
  = set_lastTimeRef (lastTimeRef (rerender (update rd t1 w))) (rerender (update rd t2 w)).
Proof.
  intros Hp. apply GameState_eqb_neq in Hp.
  assert (E : forall t, update rd t w = w).
  { intros t. unfold update. rewrite Hp. reflexivity. }
  rewrite !E. apply set_lastTimeRef_same.
Qed.

Lemma frame_time (rd : Render) t1 t2 (w : World R) :
  rerender (update rd t1 w)
  = set_lastTimeRef (lastTimeRef (rerender (update rd t1 w))) (rerender (update rd t2 w)).
Proof.
  destruct (GameState_eqb (gameState rd) PLAYING) eqn:Hp.
  - apply GameState_eqb_eq in Hp. exact (frame_time_playing rd t1 t2 w Hp).
  - apply GameState_eqb_neq in Hp. exact (frame_time_idle rd t1 t2 w Hp).
Qed.

(** A frame does not look at its time stamp: two frames that differ in the
    time stamp only lead to worlds that differ in [lastTimeRef] only, which
    is never read.  What a frame does is the same whatever time has passed
    since the frame before. *)
Theorem frame_ignores_its_time_stamp (w w1 w2 : World R) (t1 t2 : R) :
  step (Frame t1) w = Some w1 -> step (Frame t2) w = Some w2 ->
  w1 = set_lastTimeRef (lastTimeRef w1) w2.
Proof.
  unfold step. destruct (frames w) as [|[id rd] rest]; [discriminate|].
  intros H1 H2.
  pose proof (frame_time rd t1 t2 (set_frames rest w)) as E.
  congruence.
Qed.

End Steering.

(** ** The overlays *)

Section View.

Context {R : Type} {num : JSNumber R} {host : Host R}.



End View.

(** ** Painting *)

Section Canvas.

Context {R : Type} {num : JSNumber R} {host : Host R} {rem : JSRemainder R}.

Local Open Scope js_scope.

(** All [draw] does to the world is to advance the random source, by two
    draws when the frame shakes. *)
Lemma draw_world (rd : Render) (w : World R) :
  snd (draw rd w)
  = match canvasRef w with
    | Some _ => set_draws ((if isShaking rd then 2 else 0) + draws w) w
    | None => w
    end.
Proof.
  unfold draw, random. destruct (canvasRef w) as [[width height]|]; [|reflexivity].
  destruct (isShaking rd); cbn [snd]; wsimpl; destruct w; reflexivity.
Qed.

Lemma update_canvas (rd : Render) time (w : World R) :
  canvasRef (update rd time w) = canvasRef w.
Proof.
  destruct (GameState_eqb (gameState rd) PLAYING) eqn:E.
  - apply GameState_eqb_eq in E.
    destruct (update_spec rd time w E) as (q & trail & _ & _ & _ & H & _). exact H.
  - unfold update. rewrite E. reflexivity.
Qed.

(** The frame with its painting: the world is that of [update], but for
    the random numbers the shake has used. *)
Theorem painting_leaves_the_game (rd : Render) (time : R) (w : World R) :
  canvasRef w <> None ->
  snd (paintedUpdate rd time w)
  = set_draws ((if GameState_eqb (gameState rd) PLAYING && isShaking rd then 2 else 0)
               + draws (update rd time w))
      (update rd time w).
Proof.
  intros Hc. pose proof (update_canvas rd time w) as Hu. revert Hu.
  unfold paintedUpdate, update.
  destruct (GameState_eqb (gameState rd) PLAYING); cbn [negb andb];
    [|intros _; destruct w; reflexivity].
  set (x := enqueue (AddScore 1) _). intros Hu.
  assert (Hx : canvasRef x <> None) by (change (canvasRef x) with
    (canvasRef (requestAnimationFrame rd x)); now rewrite Hu).
  pose proof (draw_world rd x) as Hd. destruct (draw rd x) as [ops x']. cbn [snd] in *.
  rewrite Hd. destruct (canvasRef x); [|contradiction]. clearbody x.
  destruct x; reflexivity.
Qed.

(** ** The state of the context after [draw] *)

Lemma penRun_app ops1 ops2 (p : Pen (R := R)) :
  penRun (ops1 ++ ops2) p = penRun ops2 (penRun ops1 p).
Proof. apply fold_left_app. Qed.

Lemma penRun_laneLines k i startX height (p : Pen (R := R)) :
  penRun (laneLines k i startX height) p = p.
Proof. revert i. induction k as [|k IH]; intros i; [reflexivity|apply IH]. Qed.

Lemma penRun_movingLines fuel startX y height (p : Pen (R := R)) :
  penRun (movingLines fuel startX y height) p = p.
Proof.
  revert y. induction fuel as [|k IH]; intros y; [reflexivity|].
  cbn [movingLines]. destruct (_ <? _); [apply IH|reflexivity].
Qed.

Lemma penRun_obstacles startX l (p : Pen (R := R)) :
  alpha (penRun (flat_map (drawObstacle startX) l) p) = alpha p /\
  offsets (penRun (flat_map (drawObstacle startX) l) p) = offsets p.
Proof.
  revert p. induction l as [|obs l IH]; intros p; [auto|].
  cbn [flat_map]. rewrite penRun_app.
  destruct (IH (penRun (drawObstacle startX obs) p)) as (-> & ->).
  unfold drawObstacle. destruct (ob_type obs); auto.
Qed.

Lemma penRun_particles l (p : Pen (R := R)) :
  blur p = num_of_Z 0 ->
  offsets (penRun (flat_map drawParticle l) p) = offsets p /\
  blur (penRun (flat_map drawParticle l) p) = num_of_Z 0.
Proof.
  revert p. induction l as [|q l IH]; intros p Hb; [auto|].
  cbn [flat_map]. rewrite penRun_app.
  destruct (IH (penRun (drawParticle q) p)) as (H1 & H2).
  { unfold drawParticle. destruct (p_glow q); reflexivity. }
  rewrite H1, H2. split; [|reflexivity].
  unfold drawParticle. destruct (p_glow q); reflexivity.
Qed.

(** The pen after the picture. *)
Lemma penRun_picture (rd : Render) width height (w : World R) (p : Pen (R := R)) :
  penRun (picture rd width height w) p
  = {| alpha := num_of_Z 1; blur := num_of_Z 0; offsets := offsets p |}.
Proof.
  unfold picture. cbv zeta. rewrite !penRun_app.
  change (penRun [StrokeStyle _; LineWidth _; BeginPath] p) with p.
  rewrite penRun_laneLines.
  match goal with
  | |- context [penRun (movingLines ?f ?s ?y ?h) ?x] => rewrite (penRun_movingLines f s y h x)
  end.
  match goal with
  | |- context [penRun (flat_map (drawObstacle ?s) ?l) ?x] =>
      destruct (penRun_obstacles s l x) as (_ & Ho);
      remember (penRun (flat_map (drawObstacle s) l) x) as p1 eqn:E1; clear E1
  end.
  cbn [penRun fold_left penStep offsets] in Ho.
  match goal with
  | |- context [penRun (flat_map drawParticle ?l) ?x] =>
      destruct (penRun_particles l x) as (Hp1 & Hp2); [reflexivity|];
      remember (penRun (flat_map drawParticle l) x) as p2 eqn:E2; clear E2
  end.
  cbn [penRun fold_left penStep drawPlayer offsets blur] in Hp1 |- *.
  rewrite Hp1, Hp2, Ho. reflexivity.
Qed.

(** [draw] leaves the context as it found it: opaque, without shadow blur
    and, if the transform was the identity, with the identity transform,
    whether the frame shakes or not. *)
Theorem draw_restores_context (rd : Render) (w : World R) (p : Pen (R := R)) :
  canvasRef w <> None -> offsets p = [] ->
  penRun (fst (draw rd w)) p
  = {| alpha := num_of_Z 1; blur := num_of_Z 0; offsets := [] |}.
Proof.
  intros Hc Ho. unfold draw, random.
  destruct (canvasRef w) as [[width height]|]; [clear Hc|contradiction].
  destruct (isShaking rd); cbn [fst].
  - change (penRun (?a :: ?b :: ?l) p) with (penRun l (penStep (penStep p a) b)).
    rewrite penRun_app, penRun_picture. reflexivity.
  - change (penRun (?a :: ?l) p) with (penRun l (penStep p a)).
    rewrite penRun_picture. cbn. rewrite Ho. reflexivity.
Qed.

(** ** The shapes [draw] fills *)

Lemma shapes_app (l1 l2 : list (CanvasOp R)) :
  List.length (filter isShape (l1 ++ l2))
  = (List.length (filter isShape l1) + List.length (filter isShape l2))%nat.
Proof. now rewrite filter_app, length_app. Qed.

Lemma shapes_laneLines k i startX height :
  filter isShape (laneLines k i startX height) = [].
Proof. revert i. induction k as [|k IH]; intros i; [reflexivity|apply IH]. Qed.

Lemma shapes_movingLines fuel startX y height :
  filter isShape (movingLines fuel startX y height) = [].
Proof.
  revert y. induction fuel as [|k IH]; intros y; [reflexivity|].
  cbn [movingLines]. destruct (_ <? _); [apply IH|reflexivity].
Qed.

Lemma shapes_obstacles startX l :
  List.length (filter isShape (flat_map (drawObstacle startX) l)) = List.length l.
Proof.
  induction l as [|obs l IH]; [reflexivity|].
  cbn [flat_map]. rewrite shapes_app, IH. unfold drawObstacle.
  destruct (ob_type obs); reflexivity.
Qed.

Lemma shapes_particles (l : list (Particle R)) :
  List.length (filter isShape (flat_map drawParticle l)) = List.length l.
Proof.
  induction l as [|p l IH]; [reflexivity|].
  cbn [flat_map]. rewrite shapes_app, IH. unfold drawParticle.
  destruct (p_glow p); reflexivity.
Qed.

Lemma shapes_picture (rd : Render) width height (w : World R) :
  List.length (filter isShape (picture rd width height w))
  = (List.length (obstaclesRef w) + 1 + List.length (particlesRef w))%nat.
Proof.
  unfold picture. cbv zeta.
  rewrite !shapes_app, shapes_laneLines, shapes_movingLines, shapes_obstacles,
    shapes_particles.
  cbn. lia.
Qed.

(** [draw] fills one shape for each obstacle, one for the player and one
    for each particle, and nothing else. *)
Theorem draw_one_shape_each (rd : Render) (w : World R) :
  canvasRef w <> None ->
  List.length (filter isShape (fst (draw rd w)))
  = (List.length (obstaclesRef w) + 1 + List.length (particlesRef w))%nat.
Proof.
  intros Hc. unfold draw, random.
  destruct (canvasRef w) as [[width height]|]; [clear Hc|contradiction].
  destruct (isShaking rd); cbn [fst filter isShape].
  - rewrite shapes_app, shapes_picture. wsimpl. cbn. lia.
  - apply shapes_picture.
Qed.

End Canvas.

(** ** What a frame adds to the particles *)

Section Bursts.

Context {R : Type} {num : JSNumber R} {host : Host R}.

Local Open Scope js_scope.











End Bursts.

(** ** The effects wear off *)

Section Wear.

Context {R : Type} {num : JSNumber R} {host : Host R}.

Local Open Scope js_scope.

























End Wear.

(** ** The game in exact arithmetic *)

Section ExactGame.

Context {host : Host Q}.

Hypothesis random_unit : unitRandom host.

Local Open Scope Q_scope.

Lemma half_exact : lit (R := Q) 5 10 == 1 # 2.
Proof. reflexivity. Qed.

Lemma lively_burst x y color size glow d :
  (0 < size)%Z -> lively (newParticle x y color (sizeGlow size glow) d).
Proof.
  intros Hs. unfold lively, newParticle, sizeGlow, spread.
  cbn [p_life p_maxLife p_size o_maxLife o_size].
  destruct (random_unit (3 + d)%nat) as (H0 & H1).
  cbn [num_of_Z num_add num_mul Q_JSNumber]. rewrite half_exact.
  repeat split; try discriminate; try lra.
  change 0 with (inject_Z 0). now rewrite <- Zlt_Qlt.
Qed.

Lemma lively_trail x y color vx vy (flow : bool) glow d :
  lively (newParticle x y color
            {| o_vx := Some vx; o_vy := Some vy;
               o_size := Some (num_of_Z (if flow then 8 else 4));
               o_glow := Some glow; o_maxLife := Some (lit 3 10) |} d).
Proof.
  unfold lively, newParticle, spread. cbn [p_life p_maxLife p_size o_maxLife o_size].
  destruct flow; repeat split; discriminate.
Qed.

(** One particle pass, in exact arithmetic: the life goes down by
    [0.02 / maxLife], which is at least 0.02, and the particle stays if
    some life is left. *)
Lemma particleCallback_exact (p : Particle Q) :
  0 < p_maxLife p <= 1 ->
  let (keep, p') := particleCallback p in
  (keep = true <-> 0 < p_life p') /\
  p_life p' <= p_life p - (2 # 100) /\
  p_maxLife p' = p_maxLife p /\ p_size p' = p_size p.
Proof.
  intros (Hm0 & Hm1). unfold particleCallback. cbn [p_life p_maxLife].
  split; [apply num_ltb_lt|]. split; [|split; reflexivity].
  cbn [num_sub num_div num_of_Z Q_JSNumber]. unfold lit.
  cbn [num_div num_of_Z Q_JSNumber].
  assert (H : 2 # 100 <= inject_Z 2 / inject_Z 100 / p_maxLife p).
  { change (inject_Z 2 / inject_Z 100) with (2 # 100).
    apply Qle_shift_div_l; [exact Hm0|].
    rewrite <- (Qmult_1_r (2 # 100)) at 2. apply Qmult_le_l; [reflexivity|exact Hm1]. }
  lra.
Qed.

Lemma lively_pass (p : Particle Q) :
  lively p -> fst (particleCallback p) = true -> lively (snd (particleCallback p)).
Proof.
  intros ((Hl0 & Hl1) & (Hm0 & Hm1) & Hs).
  assert (Hm : 0 < p_maxLife p <= 1) by (split; [lra|exact Hm1]).
  pose proof (particleCallback_exact p Hm) as H.
  destruct (particleCallback p) as [keep p']. cbn [fst snd].
  destruct H as (Hk & Hd & Hmax & Hsize). intros ->.
  unfold lively. rewrite Hmax, Hsize. repeat split; try lra; now apply Hk.
Qed.

(** In exact arithmetic and with random numbers of [0, 1), every particle
    of the game is lively. *)
Lemma reachable_lively (w : World Q) :
  reachable w -> Forall lively (particlesRef w).
Proof.
  apply (reachable_particlesOk lively lively_burst lively_trail lively_pass).
Qed.

Lemma lively_decayed p : lively p -> decayed 0 p.
Proof.
  intros ((Hl0 & Hl1) & (Hm0 & Hm1) & _). unfold decayed.
  change (inject_Z (Z.of_nat 0)) with 0. split; lra.
Qed.

Lemma filterParticles_decayed k l :
  Forall (decayed k) l ->
  Forall (fun p => decayed (S k) p /\ 0 < p_life p) (filterParticles l).
Proof.
  induction 1 as [|p l Hp _ IH]; cbn [filterParticles]; [constructor|].
  destruct Hp as (Hl & Hm).
  pose proof (particleCallback_exact p Hm) as H.
  destruct (particleCallback p) as [keep p']. destruct H as (Hk & Hd & Hmax & _).
  destruct keep; [|exact IH]. constructor; [|exact IH].
  split; [|now apply Hk]. unfold decayed. rewrite Hmax. split; [|exact Hm].
  rewrite Nat2Z.inj_succ. unfold Z.succ. rewrite inject_Z_plus.
  change (inject_Z 1) with 1. lra.
Qed.

Lemma iter_decayed k l :
  Forall (decayed 0) l ->
  Forall (decayed k) (Nat.iter k filterParticles l).
Proof.
  intros H0. induction k as [|k IH]; [exact H0|].
  cbn [Nat.iter]. eapply Forall_impl; [|apply filterParticles_decayed, IH].
  intros p (H & _). exact H.
Qed.

Lemma filterParticles_fifty l :
  Forall lively l -> Nat.iter 50 filterParticles l = [].
Proof.
  intros Hl.
  assert (H49 : Forall (decayed 49) (Nat.iter 49 filterParticles l)).
  { apply iter_decayed. eapply Forall_impl; [|exact Hl]. exact lively_decayed. }
  change (Nat.iter 50 filterParticles l)
    with (filterParticles (Nat.iter 49 filterParticles l)).
  pose proof (filterParticles_decayed 49 _ H49) as H50.
  destruct (filterParticles (Nat.iter 49 filterParticles l)) as [|p ps]; [reflexivity|].
  exfalso. inversion H50 as [|? ? ((Hd & _) & Hpos) _]. subst.
  change (inject_Z (Z.of_nat 50)) with (50 # 1) in Hd. lra.
Qed.

(** In exact arithmetic and with random numbers of [0, 1), every particle
    has a life in (0, 1], a [maxLife] in [0.3, 1] and a positive size, and
    fifty particle passes, that is fifty frames, remove every particle
    there is: the list of particles does not grow without bound. *)
Theorem particles_short_lived (w : World Q) :
  reachable w ->
  Forall lively (particlesRef w) /\
  Nat.iter 50 filterParticles (particlesRef w) = [].
Proof.
  intros Hr. pose proof (reachable_lively w Hr) as Hl.
  split; [exact Hl|apply filterParticles_fifty, Hl].
Qed.

(** ** Obstacles, in exact arithmetic *)

Lemma lane_of_draw (r : Q) : 0 <= r < 1 -> (0 <= Qfloor (r * inject_Z LANES) <= 2)%Z.
Proof.
  intros (H0 & H1). change (inject_Z LANES) with 3. split.
  - change 0%Z with (Qfloor 0). apply Qfloor_resp_le. lra.
  - assert (H : (Qfloor (r * 3) < 3)%Z); [|lia].
    rewrite Zlt_Qlt. eapply Qle_lt_trans; [apply Qfloor_le|]. change (inject_Z 3) with 3. lra.
Qed.

(** With random numbers of [0, 1), every obstacle is in one of the three
    lanes. *)
Theorem obstacles_in_lanes (w : World Q) :
  reachable w -> Forall (fun o => (0 <= ob_lane o <= 2)%Z) (obstaclesRef w).
Proof.
  induction 1 as [inner saved now|w e w' Hr IH Hstep]; [constructor|].
  destruct (isFrame e) eqn:He.
  - destruct e; try discriminate.
    destruct (frame_obstacles _ w w' Hr Hstep) as (id & rd & _ & _ & Hobs & _).
    cbv zeta in Hobs. rewrite Hobs. apply Forall_forall. intros o' Ho'.
    destruct (survivors_In rd _ _ o' Ho') as (o & Hin & -> & _).
    cbn [advance ob_lane].
    destruct (beforePass_obstacles time (set_frames [] w)) as [E|(o1 & E & _ & Hl)];
      rewrite E in Hin; wsimpl_in Hin.
    + rewrite Forall_forall in IH. exact (IH o Hin).
    + apply in_app_or in Hin. destruct Hin as [Hin|[<-|[]]].
      * rewrite Forall_forall in IH. exact (IH o Hin).
      * rewrite Hl. apply lane_of_draw, random_unit.
  - destruct (step_lists e w w' Hr He Hstep) as (-> & _).
    destruct (isStart e); [constructor|exact IH].
Qed.

(** ** The game-over message, in exact arithmetic *)

Lemma drawn_message_listed (m : string) : drawnMessage m -> In m gameOverMessages.
Proof.
  intros (n & ->). destruct (random_unit n) as (H0 & H1).
  cbn [num_floor num_mul num_of_Z Q_JSNumber].
  change (inject_Z (Z.of_nat (List.length gameOverMessages))) with 7.
  assert (Hi : (0 <= Qfloor (Math_random n * 7) < 7)%Z).
  { split.
    - change 0%Z with (Qfloor 0). apply Qfloor_resp_le. lra.
    - rewrite Zlt_Qlt. eapply Qle_lt_trans; [apply Qfloor_le|].
      change (inject_Z 7) with 7. lra. }
  unfold message_at. destruct (Z.ltb_spec (Qfloor (Math_random n * 7)) 0); [lia|].
  apply nth_In. change (List.length gameOverMessages) with 7%nat. lia.
Qed.

(** With random numbers of [0, 1), the message shown when the game is over
    is one of the seven messages of [gameOverMessages], never
    [undefined]. *)
Theorem game_over_message (w : World Q) :
  reachable w -> gameState (st w) = GAME_OVER ->
  In (gameOverText (st w)) gameOverMessages.
Proof.
  intros Hr Hg. exact (drawn_message_listed _ (reachable_message w Hr Hg)).
Qed.

(** ** Painting, in exact arithmetic *)

(** The remainder is smaller than the divisor. *)
Lemma rem_bound (a b : Q) : 0 < b -> - b < num_rem a b < b.
Proof.
  intros Hb. unfold num_rem, Q_JSRemainder. cbv zeta.
  remember (a / b) as q eqn:Eq.
  assert (Ha : a == b * q) by (rewrite Eq; field; lra).
  assert (Ht : -1 < q - inject_Z (Z.quot (Qnum q) (Zpos (Qden q))) < 1).
  { clear. destruct q as [n d]. cbn [Qnum Qden].
    pose proof (Z.quot_rem' n (Zpos d)) as Hqr.
    pose proof (Z.rem_bound_abs n (Zpos d) ltac:(lia)) as Hab.
    remember (Z.quot n (Zpos d)) as t eqn:Et. remember (Z.rem n (Zpos d)) as r eqn:Er.
    clear Et Er.
    assert (E : (n # d) - inject_Z t == r # d).
    { unfold Qeq, Qminus, Qplus, Qopp, inject_Z. cbn. nia. }
    rewrite E. unfold Qlt. cbn. lia. }
  rewrite Ha.
  remember (inject_Z (Z.quot (Qnum q) (Zpos (Qden q)))) as t eqn:Et. clear Et Eq Ha.
  split; nra.
Qed.

Lemma movingLines_done fuel k startX (y height : Q) :
  height <= y + inject_Z (Z.of_nat fuel) * 100 ->
  movingLines (k + fuel) startX y height = movingLines fuel startX y height.
Proof.
  revert y. induction fuel as [|fuel IH]; intros y Hy.
  - change (inject_Z (Z.of_nat 0)) with 0 in Hy. rewrite Nat.add_0_r.
    destruct k as [|k]; [reflexivity|]. cbn [movingLines].
    destruct (y <? height)%js eqn:E; [|reflexivity].
    apply num_ltb_lt in E. lra.
  - rewrite Nat.add_succ_r. cbn [movingLines].
    destruct (y <? height)%js; [|reflexivity].
    rewrite IH; [reflexivity|].
    rewrite Nat2Z.inj_succ in Hy. unfold Z.succ in Hy. rewrite inject_Z_plus in Hy.
    change (inject_Z 1) with 1 in Hy. unfold lineSpacing.
    cbn [num_add num_of_Z Q_JSNumber]. change (inject_Z 100) with 100. lra.
Qed.

(** The loop that draws the moving lines ends by its own test: more
    iterations would draw nothing more. *)
Theorem moving_lines_end (a startX height : Q) (k : nat) :
  movingLines (k + lineFuel height) startX (num_rem a lineSpacing) height
  = movingLines (lineFuel height) startX (num_rem a lineSpacing) height.
Proof.
  apply movingLines_done.
  destruct (rem_bound a lineSpacing) as (H1 & _); [reflexivity|].
  change (- lineSpacing) with (- (100)) in H1.
  unfold lineFuel. cbn [num_floor num_div Q_JSNumber].
  change lineSpacing with 100.
  pose proof (Qlt_floor (height / 100)) as Hf.
  remember (Qfloor (height / 100)) as f eqn:Ef. clear Ef.
  assert (E : height == height / 100 * 100) by field.
  remember (height / 100) as q eqn:Eq. clear Eq.
  rewrite Nat2Z.inj_add, inject_Z_plus. change (inject_Z (Z.of_nat 2)) with 2.
  rewrite inject_Z_plus in Hf. change (inject_Z 1) with 1 in Hf.
  assert (Hn : inject_Z f <= inject_Z (Z.of_nat (Z.to_nat f))).
  { rewrite <- Zle_Qle. lia. }
  change lineSpacing with 100 in H1. remember (num_rem a 100) as o eqn:Eo. clear Eo.
  lra.
Qed.

(** ** The arguments of the context calls *)

Lemma accepted_laneLines k i startX height :
  Forall accepted (laneLines k i startX height).
Proof.
  revert i. induction k as [|k IH]; intros i; cbn [laneLines];
    repeat constructor. apply IH.
Qed.

Lemma accepted_movingLines fuel startX y height :
  Forall accepted (movingLines fuel startX y height).
Proof.
  revert y. induction fuel as [|k IH]; intros y; cbn [movingLines]; [constructor|].
  destruct (_ <? _)%js; repeat constructor. apply IH.
Qed.

Lemma accepted_obstacles startX (l : list (Obstacle Q)) :
  Forall accepted (flat_map (drawObstacle startX) l).
Proof.
  induction l as [|obs l IH]; cbn [flat_map]; [constructor|].
  apply Forall_app. split; [|exact IH]. unfold drawObstacle.
  destruct (ob_type obs); cbn [app]; repeat constructor; cbn; discriminate.
Qed.

Lemma accepted_particles (l : list (Particle Q)) :
  Forall lively l -> Forall accepted (flat_map drawParticle l).
Proof.
  induction 1 as [|p l ((Hl0 & Hl1) & _ & Hs) _ IH]; cbn [flat_map]; [constructor|].
  apply Forall_app. split; [|exact IH]. unfold drawParticle.
  assert (Hb : 0 <= 10 * p_life p) by lra.
  assert (Hr : 0 <= p_size p * p_life p) by nra.
  destruct (p_glow p); cbn [app]; repeat constructor; cbn; try lra; try assumption;
    discriminate.
Qed.

Lemma draw_accepted (rd : Render) (w : World Q) :
  Forall lively (particlesRef w) -> Forall accepted (fst (draw rd w)).
Proof.
  intros Hl.
  unfold draw, random. destruct (canvasRef w) as [[width height]|]; [|constructor].
  assert (Hp : forall w1 : World Q, particlesRef w1 = particlesRef w ->
                 Forall accepted (picture rd width height w1)).
  { intros w1 E. unfold picture. cbv zeta. rewrite E.
    repeat (apply Forall_app; split);
      try apply accepted_laneLines; try apply accepted_movingLines;
      try apply accepted_obstacles; try (apply accepted_particles, Hl);
      repeat constructor; cbn; discriminate. }
  destruct (isShaking rd); cbn [fst].
  - constructor; [exact I|]. constructor; [exact I|].
    apply Forall_app. split; [apply Hp; reflexivity|]. repeat constructor.
  - constructor; [exact I|]. apply Hp. reflexivity.
Qed.

(** In exact arithmetic every call on the context that a frame makes is
    accepted: no radius, opacity or blur is out of range, so that [draw]
    does not throw and the frame goes on to request the next one. *)
Theorem frame_painting_accepted (w : World Q) (rd : Render) rest (time : Q) :
  reachable w ->
  Forall accepted (fst (paintedUpdate rd time (set_frames rest w))).
Proof.
  intros Hr. pose proof (reachable_lively w Hr) as Hl.
  assert (Hu : Forall lively (particlesRef (update rd time (set_frames rest w)))).
  { apply (particlesOk_update lively lively_burst lively_trail lively_pass).
    exact Hl. }
  revert Hu. unfold paintedUpdate, update.
  destruct (negb _); [constructor|].
  set (x := enqueue (AddScore 1) _). intros Hu.
  change (particlesRef (requestAnimationFrame rd x)) with (particlesRef x) in Hu.
  pose proof (draw_accepted rd x Hu) as Hd.
  destruct (draw rd x) as [ops x']. exact Hd.
Qed.




End ExactGame.

(** ** The further properties on the scenarios *)

Lemma scripted_unit (script : list Q) :
  forallb inUnit script = true -> unitRandom (scriptedHost script).
Proof.
  intros Hall n. cbn [Math_random scriptedHost].
  assert (Hin : inUnit (nth n script (9 # 10)) = true).
  { destruct (Nat.lt_ge_cases n (List.length script)) as [Hlt|Hge].
    - rewrite forallb_forall in Hall. apply Hall, nth_In, Hlt.
    - rewrite nth_overflow by exact Hge. reflexivity. }
  unfold inUnit in Hin. apply andb_true_iff in Hin. destruct Hin as (H0 & H1).
  apply Qle_bool_iff in H0. apply negb_true_iff in H1. split; [exact H0|].
  apply Qnot_le_lt. intros Hle. apply Qle_bool_iff in Hle. congruence.
Qed.

Lemma powerHost_unit : unitRandom powerHost.
Proof. apply scripted_unit. vm_compute. reflexivity. Qed.

Lemma crashHost_unit : unitRandom crashHost.
Proof. apply scripted_unit. vm_compute. reflexivity. Qed.

Lemma pileUpHost_unit : unitRandom pileUpHost.
Proof. apply scripted_unit. vm_compute. reflexivity. Qed.

Lemma reachable_poweredGame : reachable (host := powerHost) poweredGame.
Proof.
  apply (reachable_after powerHost tenAuras (inject_Z 300, inject_Z 40) None 0).
  vm_compute. reflexivity.
Qed.

Lemma reachable_shakenGame : reachable (host := shakeHost) shakenGame.
Proof.
  apply (reachable_after shakeHost shakeTrace (inject_Z 300, inject_Z 40) None 0).
  vm_compute. reflexivity.
Qed.

Lemma reachable_restartedGame : reachable (host := shakeHost) restartedGame.
Proof.
  apply (reachable_after shakeHost (shakeTrace ++ [ClickStart])
           (inject_Z 300, inject_Z 40) None 0).
  vm_compute. reflexivity.
Qed.

Lemma reachable_pileUpGame : reachable (host := pileUpHost) pileUpGame.
Proof.
  apply (reachable_after pileUpHost pileUpTrace (inject_Z 300, inject_Z 1000) None 0).
  vm_compute. reflexivity.
Qed.

Lemma reachable_tallStarted : reachable (host := pileUpHost) tallStarted.
Proof.
  apply (reachable_after pileUpHost [ClickStart; frameAt 16]
           (inject_Z 300, inject_Z 1000) None 0).
  vm_compute. reflexivity.
Qed.

Lemma frame_loop_follows_state_witness :
  (gameState (st poweredGame) = PLAYING <-> frames poweredGame <> []) /\
  (List.length (frames poweredGame) <= 1)%nat /\
  (forall id rd, In (id, rd) (frames poweredGame) -> requestRef poweredGame = Some id) /\
  gameState (st poweredGame) <> SHOP.
Proof.
  apply (frame_loop_follows_state (host := powerHost) poweredGame).
  exact reachable_poweredGame.
Defined.

Lemma pending_frame_closure_witness : closureOk (pendingClosure poweredGame).
Proof.
  apply (pending_frame_closure (host := powerHost) poweredGame).
  - exact reachable_poweredGame.
  - vm_compute. discriminate.
Defined.

Lemma power_mode_does_not_protect_witness :
  gameState (st crashedPowered) = GAME_OVER /\
  score (st crashedPowered) = (score (st poweredGame) + 1)%Z.
Proof.
  apply (power_mode_does_not_protect (host := powerHost) (inject_Z 183)
           poweredGame crashedPowered).
  - exact reachable_poweredGame.
  - vm_compute. reflexivity.
  - vm_compute. reflexivity.
  - vm_compute. reflexivity.
Defined.

Lemma score_counts_frames_witness :
  score (st startedGame) = 0%Z /\
  forall es w',
    existsb isStart es = false -> run (host := quietHost) es startedGame = Some w' ->
    score (st w') = Z.of_nat (frameCount es).
Proof.
  apply (score_counts_frames (host := quietHost) freshGame startedGame).
  - apply reach_mount.
  - vm_compute. reflexivity.
Defined.

Lemma start_resets_run_witness :
  gameState (st shakenGame) <> PLAYING /\
  st restartedGame
  = {| gameState := PLAYING; score := 0; highScore := highScore (st shakenGame);
       auraCount := 0; isFlowState := false; playerLane := 1;
       gameOverText := gameOverText (st shakenGame);
       isShaking := isShaking (st shakenGame) |} /\
  obstaclesRef restartedGame = [] /\ particlesRef restartedGame = [] /\
  speedRef restartedGame = num_of_Z INITIAL_SPEED /\
  frames restartedGame = [(nextHandle shakenGame, st restartedGame)] /\
  timers restartedGame = timers shakenGame /\
  storage restartedGame = storage shakenGame /\
  clock restartedGame = clock shakenGame.
Proof.
  apply (start_resets_run (host := shakeHost) shakenGame restartedGame).
  - exact reachable_shakenGame.
  - vm_compute. reflexivity.
Defined.

Lemma canvas_fills_window_witness :
  canvasRef pileUpGame = Some (innerSize pileUpGame) /\
  forall width height w',
    step (host := pileUpHost) (Resize width height) pileUpGame = Some w' ->
    canvasRef w' = Some (width, height) /\ innerSize w' = (width, height) /\
    st w' = st pileUpGame /\ obstaclesRef w' = obstaclesRef pileUpGame /\
    particlesRef w' = particlesRef pileUpGame /\ speedRef w' = speedRef pileUpGame /\
    frames w' = frames pileUpGame /\ timers w' = timers pileUpGame.
Proof.
  apply (canvas_fills_window (host := pileUpHost) pileUpGame).
  exact reachable_pileUpGame.
Defined.

Lemma obstacles_after_frame_witness :
  Forall (fun o =>
            collides (fst (innerSize tallSecond)) (snd (innerSize tallSecond)) 1
              (ob_lane o) (ob_y o) = false /\
            (ob_y o <? snd (innerSize tallSecond) + num_of_Z 100)%js = true)
         (obstaclesRef tallSecond) /\
  (List.length (obstaclesRef tallSecond) <= S (List.length (obstaclesRef tallStarted)))%nat.
Proof.
  apply (obstacles_after_frame (host := pileUpHost) (inject_Z 33) tallStarted tallSecond).
  - exact reachable_tallStarted.
  - vm_compute. reflexivity.
Defined.

Lemma obstacles_in_lanes_witness :
  Forall (fun o => (0 <= ob_lane o <= 2)%Z) (obstaclesRef pileUpGame).
Proof.
  apply (obstacles_in_lanes (host := pileUpHost) pileUpHost_unit pileUpGame).
  exact reachable_pileUpGame.
Defined.

Lemma particles_short_lived_witness :
  Forall lively (particlesRef poweredGame) /\
  Nat.iter 50 filterParticles (particlesRef poweredGame) = [].
Proof.
  apply (particles_short_lived (host := powerHost) powerHost_unit poweredGame).
  exact reachable_poweredGame.
Defined.


Lemma game_over_message_witness :
  In (gameOverText (st crashedGame)) gameOverMessages.
Proof.
  apply (game_over_message (host := crashHost) crashHost_unit crashedGame).
  - apply (reachable_after crashHost crashTrace (inject_Z 300, inject_Z 40) None 0).
    vm_compute. reflexivity.
  - vm_compute. reflexivity.
Defined.

Lemma high_score_frozen_witness :
  score (st beatenGame) = 3%Z /\
  highScore (st beatenGame) = initialHighScore (Some "2"%string) /\
  storage beatenGame = Some "2"%string.
Proof.
  split; [vm_compute; reflexivity|].
  apply (high_score_frozen (host := crashHost) (inject_Z 300, inject_Z 40)
           (Some "2"%string) 0%Z crashTrace beatenGame).
  - vm_compute. reflexivity.
  - vm_compute. reflexivity.
Defined.


Lemma painting_leaves_the_game_witness :
  let rd := pendingClosure restartedGame in
  let w := set_frames [] restartedGame in
  snd (paintedUpdate (host := shakeHost) rd (inject_Z 16) w)
  = set_draws ((if GameState_eqb (gameState rd) PLAYING && isShaking rd then 2 else 0)
               + draws (update (host := shakeHost) rd (inject_Z 16) w))
      (update (host := shakeHost) rd (inject_Z 16) w).
Proof.
  apply (painting_leaves_the_game (host := shakeHost) (pendingClosure restartedGame)
           (inject_Z 16) (set_frames [] restartedGame)).
  vm_compute. discriminate.
Defined.

Lemma draw_restores_context_witness :
  penRun (fst (draw (host := shakeHost) (pendingClosure restartedGame) restartedGame))
    freshPen
  = {| alpha := num_of_Z 1; blur := num_of_Z 0; offsets := [] |}.
Proof.
  apply (draw_restores_context (host := shakeHost) (pendingClosure restartedGame)
           restartedGame freshPen).
  - vm_compute. discriminate.
  - reflexivity.
Defined.

Lemma draw_one_shape_each_witness :
  List.length (filter isShape
                 (fst (draw (host := powerHost) (pendingClosure poweredGame) poweredGame)))
  = (List.length (obstaclesRef poweredGame) + 1
     + List.length (particlesRef poweredGame))%nat.
Proof.
  apply (draw_one_shape_each (host := powerHost) (pendingClosure poweredGame) poweredGame).
  vm_compute. discriminate.
Defined.

Lemma frame_painting_accepted_witness :
  Forall accepted
    (fst (paintedUpdate (host := powerHost) (pendingClosure poweredGame) (inject_Z 183)
            (set_frames [] poweredGame))).
Proof.
  apply (frame_painting_accepted (host := powerHost) powerHost_unit poweredGame
           (pendingClosure poweredGame) [] (inject_Z 183)).
  exact reachable_poweredGame.
Defined.

Lemma steering_is_not_seen_witness :
  playerLane (st steeredGame) = 0%Z /\
  frames steeredGame = frames tallSecond /\
  (frames steeredGame <> [] -> playerLane (pendingClosure steeredGame) = 1%Z) /\
  forall ty time,
    frameHits (host := pileUpHost) ty time steeredGame
    = frameHits (host := pileUpHost) ty time tallSecond.
Proof.
  split; [vm_compute; reflexivity|].
  apply (steering_is_not_seen (host := pileUpHost) tallSecond) with (e := KeyDown "ArrowLeft").
  - apply (reachable_after pileUpHost [ClickStart; frameAt 16; frameAt 33]
             (inject_Z 300, inject_Z 1000) None 0).
    vm_compute. reflexivity.
  - left. exists "ArrowLeft"%string. reflexivity.
  - vm_compute. reflexivity.
Defined.

Lemma frame_ignores_its_time_stamp_witness :
  firstFrame = set_lastTimeRef (lastTimeRef firstFrame) lateFrame.
Proof.
  apply (frame_ignores_its_time_stamp (host := quietHost) startedGame firstFrame
           lateFrame (inject_Z 16) (inject_Z 1000)).
  - vm_compute. reflexivity.
  - vm_compute. reflexivity.
Defined.



